(** * llmos-cli: a shallow embedding of the extraction core

    The development follows the Python sources:
    - [ast_utils.py]      parser pool, text slicing, queries, docstrings;
    - [extract_python.py] FQN builder, signature and record extractors;
    - [cli.py]            component ids, per-file processing, aggregation.

    Conventions.  A Python [str] is a Rocq [string] (the inputs of interest
    are 7-bit text); [bytes] is [list Byte.byte]; [None]/[Optional] is
    [option]; a [dict] used as a map is a [gmap], and a [dict] whose
    insertion order is observable is an association list.  A tree-sitter
    [Node] is a finite tree carrying exactly the attributes the sources read. *)

From Stdlib Require Import String Ascii List Arith Lia Bool.
From Stdlib Require Strings.Byte.
From stdpp Require Import base strings list gmap.
Set Warnings "-register-all".
Open Scope string_scope.
Open Scope list_scope.

(* ================================================================= *)
(** ** Python [str] primitives used by the sources *)

Definition nl : string := String "010"%char "".

(** [s.startswith(p)] *)
Fixpoint str_startswith (s p : string) : bool :=
  match p, s with
  | EmptyString, _ => true
  | String _ _, EmptyString => false
  | String a p', String b s' => Ascii.eqb a b && str_startswith s' p'
  end.

(** [s[n:]] for [n >= 0] *)
Fixpoint str_drop (n : nat) (s : string) : string :=
  match n, s with
  | O, _ => s
  | S _, EmptyString => EmptyString
  | S n', String _ s' => str_drop n' s'
  end.

(** [s[:n]] for [n >= 0] *)
Fixpoint str_take (n : nat) (s : string) : string :=
  match n, s with
  | O, _ => EmptyString
  | S _, EmptyString => EmptyString
  | S n', String a s' => String a (str_take n' s')
  end.

(** [s.endswith(p)] *)
Definition str_endswith (s p : string) : bool :=
  Nat.leb (String.length p) (String.length s)
  && String.eqb (str_drop (String.length s - String.length p) s) p.

(** [s.endswith((p1, ..., pk))] with a tuple of suffixes *)
Definition str_endswith_any (s : string) (ps : list string) : bool :=
  existsb (str_endswith s) ps.

(** [sub in s] *)
Fixpoint str_contains (s sub : string) : bool :=
  str_startswith s sub
  || match s with
     | EmptyString => false
     | String _ s' => str_contains s' sub
     end.

(** [sep.join(l)] *)
Fixpoint str_join (sep : string) (l : list string) : string :=
  match l with
  | [] => ""
  | [x] => x
  | x :: l' => x +:+ sep +:+ str_join sep l'
  end.

(** [s.split(c)] for a one-character separator: never returns [[]]. *)
Fixpoint str_split (c : ascii) (s : string) : list string :=
  match s with
  | EmptyString => [""]
  | String a s' =>
      if Ascii.eqb a c then "" :: str_split c s'
      else match str_split c s' with
           | [] => [String a ""]
           | w :: ws => String a w :: ws
           end
  end.

(** [s.replace(old, new)] for a non-empty [old]: leftmost, non-overlapping.
    [skip] counts the characters of a match that remain to be consumed. *)
Fixpoint str_replace_from (skip : nat) (old new s : string) : string :=
  match s with
  | EmptyString => ""
  | String a s' =>
      match skip with
      | S k => str_replace_from k old new s'
      | O =>
          if str_startswith s old
          then new +:+ str_replace_from (String.length old - 1) old new s'
          else String a (str_replace_from 0 old new s')
      end
  end.

(** The empty pattern matches between all characters. *)
Fixpoint str_intersperse (new s : string) : string :=
  match s with
  | EmptyString => new
  | String a s' => new +:+ String a (str_intersperse new s')
  end.

Definition str_replace (s old new : string) : string :=
  match old with
  | EmptyString => str_intersperse new s
  | _ => str_replace_from 0 old new s
  end.

(** [c.lower()] and [s.lower()] on 7-bit text *)
Definition chr_lower (c : ascii) : ascii :=
  let n := nat_of_ascii c in
  if Nat.leb 65 n && Nat.leb n 90 then ascii_of_nat (n + 32) else c.

Fixpoint str_lower (s : string) : string :=
  match s with
  | EmptyString => ""
  | String a s' => String (chr_lower a) (str_lower s')
  end.

(** [c.isspace()] on 7-bit text: TAB, LF, VT, FF, CR, FS, GS, RS, US, SPACE *)
Definition chr_isspace (c : ascii) : bool :=
  let n := nat_of_ascii c in
  (Nat.leb 9 n && Nat.leb n 13) || (Nat.leb 28 n && Nat.leb n 32).

(** [s.lstrip(chars)]-style stripping, driven by a character predicate *)
Fixpoint str_lstrip_with (p : ascii -> bool) (s : string) : string :=
  match s with
  | EmptyString => ""
  | String a s' => if p a then str_lstrip_with p s' else s
  end.

(** The right-hand counterpart: drop the longest suffix satisfying [p]. *)
Fixpoint str_rstrip_with (p : ascii -> bool) (s : string) : string :=
  match s with
  | EmptyString => ""
  | String a s' =>
      match str_rstrip_with p s' with
      | EmptyString => if p a then "" else String a ""
      | r => String a r
      end
  end.

(** [s.strip()] *)
Definition str_strip (s : string) : string :=
  str_rstrip_with chr_isspace (str_lstrip_with chr_isspace s).

(** [s.lstrip('*')] *)
Definition str_lstrip_chars (chars : list ascii) (s : string) : string :=
  str_lstrip_with (fun a => existsb (Ascii.eqb a) chars) s.

(** [s.rfind(c)] for one character: [None] stands for [-1]. *)
Fixpoint str_rfind (c : ascii) (s : string) : option nat :=
  match s with
  | EmptyString => None
  | String a s' =>
      match str_rfind c s' with
      | Some i => Some (S i)
      | None => if Ascii.eqb a c then Some 0 else None
      end
  end.

(** Python truthiness of a [str] and of an [Optional[str]] *)
Definition str_truthy (s : string) : bool := negb (String.eqb s "").

Definition opt_truthy (o : option string) : bool :=
  match o with
  | Some s => str_truthy s
  | None => false
  end.

(** [o or d] for an [Optional[str]] [o] *)
Definition opt_or (o : option string) (d : string) : string :=
  match o with
  | Some s => if str_truthy s then s else d
  | None => d
  end.

(* ================================================================= *)
(** ** [textwrap.dedent] (standard library, CPython 3.8 - 3.13)

    The library works line by line through multi-line regular
    expressions; the model splits on LF and treats each line. *)

Definition chr_is_blank (c : ascii) : bool :=
  Ascii.eqb c " "%char || Ascii.eqb c "009"%char.

Fixpoint str_forallb (p : ascii -> bool) (s : string) : bool :=
  match s with
  | EmptyString => true
  | String a s' => p a && str_forallb p s'
  end.

(** The longest prefix whose characters satisfy [p]. *)
Fixpoint str_span (p : ascii -> bool) (s : string) : string :=
  match s with
  | EmptyString => ""
  | String a s' => if p a then String a (str_span p s') else ""
  end.

(** [_whitespace_only_re.sub('', text)]: a line of blanks becomes empty. *)
Definition dedent_blank_line (line : string) : string :=
  if str_forallb chr_is_blank line then "" else line.

(** [_leading_whitespace_re.findall(text)]: one indent per line that has a
    character other than a blank. *)
Definition dedent_indents (lines : list string) : list string :=
  map (str_span chr_is_blank)
      (filter (fun l => negb (str_forallb chr_is_blank l)) lines).

Fixpoint str_common_prefix (a b : string) : string :=
  match a, b with
  | String x a', String y b' =>
      if Ascii.eqb x y then String x (str_common_prefix a' b') else ""
  | _, _ => ""
  end.

(** One turn of the [for indent in indents] loop. *)
Definition dedent_margin_step (margin : option string) (indent : string)
  : option string :=
  match margin with
  | None => Some indent
  | Some m =>
      if str_startswith indent m then Some m
      else if str_startswith m indent then Some indent
      else Some (str_common_prefix m indent)
  end.

Definition dedent_margin (indents : list string) : option string :=
  fold_left dedent_margin_step indents None.

(** [re.sub(r'(?m)^' + margin, '', text)] on one line *)
Definition dedent_cut (margin line : string) : string :=
  if str_startswith line margin then str_drop (String.length margin) line
  else line.

Definition textwrap_dedent (text : string) : string :=
  let lines := map dedent_blank_line (str_split "010"%char text) in
  match dedent_margin (dedent_indents lines) with
  | Some m =>
      if str_truthy m then str_join nl (map (dedent_cut m) lines)
      else str_join nl lines
  | None => str_join nl lines
  end.

(* ================================================================= *)
(** ** Syntax-tree nodes (tree-sitter's [Node], as the sources read it) *)

Abbreviation bytes := (list Byte.byte).

Inductive Node : Type := mkNode {
  node_type : string;             (* [node.type] *)
  is_named : bool;                (* named vs. anonymous token *)
  field_name : option string;     (* the field under which the parent holds it *)
  start_byte : nat;
  end_byte : nat;
  start_row : nat;                (* [node.start_point[0]] *)
  end_row : nat;                  (* [node.end_point[0]] *)
  children : list Node
}.

Definition child_by_field_name (n : Node) (f : string) : option Node :=
  find (fun c => bool_decide (field_name c = Some f)) (children n).

Definition named_children (n : Node) : list Node :=
  filter (fun c => is_named c) (children n).

Definition named_child_count (n : Node) : nat := length (named_children n).

Definition named_child (n : Node) (i : nat) : option Node :=
  named_children n !! i.

(** [content_bytes[a:b]] for non-negative [a], [b] *)
Definition bytes_slice (bs : bytes) (a b : nat) : bytes :=
  take (b - a) (drop a bs).

(* ================================================================= *)
(** ** Language registry entries ([config.py]) *)

Record LanguageConfig (Language : Type) : Type := mkLanguageConfig {
  language : option Language;               (* the ["language"] key *)
  queries : list (string * string);         (* ["queries"], insertion order *)
  node_types : list (string * string)       (* ["node_types"] *)
}.
Arguments mkLanguageConfig {Language}.
Arguments language {Language}.
Arguments queries {Language}.
Arguments node_types {Language}.

(** [d.get(k)] on an insertion-ordered table *)
Fixpoint assoc_get {V : Type} (k : string) (d : list (string * V)) : option V :=
  match d with
  | [] => None
  | (k', v) :: d' => if String.eqb k k' then Some v else assoc_get k d'
  end.

Definition python_node_types : list (string * string) :=
  [ ("func_def", "function_definition"); ("class_def", "class_definition");
    ("identifier", "identifier"); ("block", "block");
    ("string", "string"); ("expression_statement", "expression_statement") ].

Definition dq : string := String "034"%char "".

(** Query sources, up to layout whitespace. *)
Definition python_queries : list (string * string) :=
  [ ("functions",
     "(function_definition name: (identifier) @function.name) @function.definition");
    ("classes",
     "(class_definition name: (identifier) @class.name) @class.definition");
    ("docstring", "(expression_statement (string) @docstring)");
    ("test_funcs",
     "(function_definition name: (identifier) @name (#match? @name "
       +:+ dq +:+ "^test_" +:+ dq +:+ ")) @function") ].

(** The entry [load_language_configs] stores under ["python"]. *)
Definition python_config {Language : Type} (l : Language) : LanguageConfig Language :=
  mkLanguageConfig (Some l) python_queries python_node_types.

Definition IGNORE_DIRS : list string :=
  [ ".git"; ".svn"; ".hg"; "target"; "build"; "dist"; "node_modules";
    "venv"; ".venv"; "env"; "__pycache__"; ".pytest_cache";
    ".mypy_cache"; ".ruff_cache"; ".vscode"; ".idea"; "docs"; "examples";
    "site-packages"; "migrations" ].

Definition IGNORE_FILES : list string :=
  [ ".gitignore"; "LICENSE"; "MANIFEST.in"; "requirements.txt"; "setup.py";
    "setup.cfg"; "Pipfile"; "Pipfile.lock"; "poetry.lock"; "uv.lock";
    ".DS_Store"; "pyproject.toml"; "Cargo.toml"; "Cargo.lock";
    "package.json"; "go.mod" ].

(** [x in collection] for strings *)
Definition str_in (x : string) (l : list string) : bool :=
  existsb (String.eqb x) l.

(** Keys of an insertion-ordered dictionary, as a sequence of
    insertions: the first occurrence of each key fixes its place. *)
Fixpoint first_seen (ids : list string) : list string :=
  match ids with
  | [] => []
  | x :: rest => x :: filter (fun y => y <> x) (first_seen rest)
  end.

(** The keys of a dictionary after [if k not in d: d[k] = ...], for a
    step that may not reach the assignment ([None]). *)
Definition add_key (ks : list string) (k : option string) : list string :=
  match k with
  | Some k => if existsb (String.eqb k) ks then ks else ks ++ [k]
  | None => ks
  end.

(** Every entry is stored under its own [component_id]. *)
Definition keyed {C : Type} (id : C -> string) (d : list (string * C)) : Prop :=
  Forall (fun kv => id (snd kv) = fst kv) d.

(** Sortedness of a sequence of identifiers under Python's [str] order
    (lexicographic on code points). *)
Fixpoint ids_sorted (ids : list string) : bool :=
  match ids with
  | x :: ((y :: _) as rest) => String.leb x y && ids_sorted rest
  | _ => true
  end.

(* ================================================================= *)
(** ** The sources, over the runtime they are linked against *)

Section Sources.

(** Opaque handles of the tree-sitter binding. *)
Context {Language Parser Query : Type}.

(** [bytes.decode('utf-8', errors='replace')]: total, never raises. *)
Variable decode : bytes -> string.

(** The registry [LANG_CONFIG] once [load_language_configs] has run. *)
Variable LANG_CONFIG : gmap string (LanguageConfig Language).

(** [Parser(); parser.set_language(l)]: [None] when it raises. *)
Variable new_parser : Language -> option Parser.
(** [l.query(source)]: [None] when compilation raises. *)
Variable compile_query : Language -> string -> option Query.
(** [parser.parse(content).root_node]: tree-sitter always yields a tree. *)
Variable ts_parse : Parser -> bytes -> Node.
(** [query.captures(node)]: [None] when it raises. *)
Variable captures : Query -> Node -> option (list (Node * string)).

(* --------------------------------------------------------------- *)
(** *** [ast_utils.py] *)

(** The two module-level caches. *)
Record Pool : Type := mkPool {
  parsers : gmap string Parser;
  _queries_compiled : gmap string (gmap string Query)
}.

(** The [for query_name, query_string in ...items()] loop: a query whose
    compilation raises is skipped (a warning is printed). *)
Definition compile_queries (l : Language) (qs : list (string * string))
  : gmap string Query :=
  fold_left
    (fun acc '(query_name, query_string) =>
       match compile_query l query_string with
       | Some q => <[query_name := q]> acc
       | None => acc
       end)
    qs ∅.

Definition _initialize_parser (lang_name : string) (st : Pool)
  : option Parser * Pool :=
  match parsers st !! lang_name with
  | Some p => (Some p, st)
  | None =>
      match LANG_CONFIG !! lang_name with
      | None => (None, st)
      | Some cfg =>
          match language cfg with
          | None => (None, st)
          | Some l =>
              match new_parser l with
              | None => (None, st)
              | Some p =>
                  (Some p,
                   mkPool (<[lang_name := p]> (parsers st))
                          (<[lang_name := compile_queries l (queries cfg)]>
                             (_queries_compiled st)))
              end
          end
      end
  end.

Definition parse_code (content_bytes : bytes) (lang : string) (st : Pool)
  : option Node * Pool :=
  match parsers st !! lang with
  | Some p => (Some (ts_parse p content_bytes), st)
  | None =>
      match _initialize_parser lang st with
      | (Some p, st') => (Some (ts_parse p content_bytes), st')
      | (None, st') => (None, st')
      end
  end.

(** The calls that write the pool: initialisation of any language,
    directly or on the fly from [parse_code]. *)
Inductive pool_step : Pool -> Pool -> Prop :=
| pool_step_init lang st :
    pool_step st (snd (_initialize_parser lang st))
| pool_step_parse content_bytes lang st :
    pool_step st (snd (parse_code content_bytes lang st)).

(** The query [k] of [lang] is not in the compiled set. *)
Definition query_absent (lang k : string) (st : Pool) : Prop :=
  default ∅ (_queries_compiled st !! lang) !! k = None.

(** The body of [get_node_text] for a present node.  The
    [except IndexError] arm is dead: slicing [bytes] never raises. *)
Definition node_text (n : Node) (content_bytes : bytes) : string :=
  if Nat.ltb (start_byte n) (end_byte n)
     && Nat.leb (end_byte n) (length content_bytes)
  then decode (bytes_slice content_bytes (start_byte n) (end_byte n))
  else "".

(** [content_bytes] is always a [bytes] object at the call sites, so the
    [is not None] half of the guard is the node test alone. *)
Definition get_node_text (node : option Node) (content_bytes : bytes)
  : option string :=
  match node with
  | Some n => Some (node_text n content_bytes)
  | None => None
  end.

Definition run_query (query_key lang : string) (node : option Node) (st : Pool)
  : list (Node * string) :=
  let lang_queries := default ∅ (_queries_compiled st !! lang) in
  match lang_queries !! query_key, node with
  | Some query, Some n =>
      match captures query n with
      | Some r => r
      | None => []
      end
  | _, _ => []
  end.

Definition get_lang_config_val_node_types (lang : string)
  : list (string * string) :=
  match LANG_CONFIG !! lang with
  | Some cfg => node_types cfg
  | None => []
  end.

Definition is_node_type (node : option Node) (lang type_key : string) : bool :=
  match node with
  | None => false
  | Some n =>
      match assoc_get type_key (get_lang_config_val_node_types lang) with
      | Some expected_type_name => String.eqb (node_type n) expected_type_name
      | None => false
      end
  end.

Definition find_child_by_field_name (node : option Node) (f : string)
  : option Node :=
  match node with
  | None => None
  | Some n => child_by_field_name n f
  end.

(** Token types skipped as quotes and prefixes. *)
Definition quote_token_types : list string :=
  [ dq +:+ dq +:+ dq; "'''"; dq; "'"; "r" +:+ dq; "r'";
    "u" +:+ dq; "u'"; "f" +:+ dq; "f'" ].

Definition get_docstring_from_python_node
    (body_node : option Node) (content_bytes : bytes) : option string :=
  match body_node with
  | None => None
  | Some body =>
      if negb (is_node_type (Some body) "python" "block") then None
      else
        match named_children body with
        | [] => None
        | first_statement :: _ =>
            match named_children first_statement with
            | string_node_container :: _ =>
                if is_node_type (Some first_statement) "python" "expression_statement"
                   && is_node_type (Some string_node_container) "python" "string"
                then
                  let docstring_parts :=
                    omap (fun child_string_node =>
                            if str_in (node_type child_string_node) quote_token_types
                            then None
                            else get_node_text (Some child_string_node) content_bytes)
                         (children string_node_container) in
                  let raw_docstring := str_join "" docstring_parts in
                  if str_truthy raw_docstring
                  then Some (str_strip (textwrap_dedent raw_docstring))
                  else None
                else None
            | [] => None
            end
        end
  end.

Definition rust_comment_types : list string := ["line_comment"; "block_comment"].

(** [comment_text[3:-2]] *)
Definition str_slice_3_m2 (s : string) : string :=
  str_take (String.length s - 2 - 3) (str_drop 3 s).

(** [[line.strip().lstrip('*').strip() for line in cleaned.split('\n')]] *)
Definition rust_block_lines (comment_text : string) : list string :=
  let cleaned_block := str_strip (str_slice_3_m2 comment_text) in
  map (fun line => str_strip (str_lstrip_chars ["*"%char] (str_strip line)))
      (str_split "010"%char cleaned_block).

(** The lines one comment node contributes, for the markers [line_marker]
    (["///"] or ["//!"]) and [block_marker] (["/**"] or ["/*!"]). *)
Definition rust_comment_lines (line_marker block_marker : string)
    (c : Node) (content_bytes : bytes) : list string :=
  let comment_text := node_text c content_bytes in
  if str_truthy comment_text then
    if String.eqb (node_type c) "line_comment"
       && str_startswith comment_text line_marker
    then [str_strip (str_drop 3 comment_text)]
    else if String.eqb (node_type c) "block_comment"
            && str_startswith comment_text block_marker
            && str_endswith comment_text "*/"
    then rust_block_lines comment_text
    else []
  else [].

(** The [while prev_sibling and prev_sibling.type in (...)] loop.
    [prevs] is the chain [item.prev_named_sibling],
    [item.prev_named_sibling.prev_named_sibling], ... (nearest first). *)
Fixpoint rust_outer_walk (prevs : list Node) (content_bytes : bytes)
    (temp_doc_lines : list string) : list string :=
  match prevs with
  | [] => temp_doc_lines
  | prev_sibling :: rest =>
      if str_in (node_type prev_sibling) rust_comment_types
      then rust_outer_walk rest content_bytes
             (temp_doc_lines
                ++ rust_comment_lines "///" "/**" prev_sibling content_bytes)
      else temp_doc_lines
  end.

(** The [for child in item_node.named_children] loop with its [break]. *)
Fixpoint rust_inner_scan (cs : list Node) (content_bytes : bytes)
    (doc_lines : list string) : list string :=
  match cs with
  | [] => doc_lines
  | child :: rest =>
      if str_in (node_type child) rust_comment_types
      then rust_inner_scan rest content_bytes
             (doc_lines ++ rust_comment_lines "//!" "/*!" child content_bytes)
      else if negb (str_in (node_type child) ["attribute_item"; "{"; "}"])
      then doc_lines
      else rust_inner_scan rest content_bytes doc_lines
  end.


Definition get_docstring_from_rust_node
    (prevs : list Node) (item_node : Node) (content_bytes : bytes)
  : option string :=
  let temp_doc_lines := rust_outer_walk prevs content_bytes [] in
  let doc_lines := rev temp_doc_lines in
  let doc_lines :=
    if String.eqb (node_type item_node) "function_item" then doc_lines
    else if str_in (node_type item_node) ["struct_item"; "enum_item"]
    then rust_inner_scan (named_children item_node) content_bytes doc_lines
    else doc_lines in
  match doc_lines with
  | [] => None
  | _ => Some (str_strip (str_join nl doc_lines))
  end.


(* --------------------------------------------------------------- *)
(** *** [extract_python.py] *)

Definition LANG : string := "python".

(** [os.sep] on the POSIX hosts the tool targets *)
Definition os_sep : string := "/".

(** [l.pop()] as a statement: the list without its last element *)
Definition list_pop {A : Type} (l : list A) : list A := removelast l.

(** The first half of [_build_python_fqn]: file path to module path. *)
Definition base_module_path_of (file_rel_path : string) : string :=
  let module_parts := str_split "."%char (str_replace file_rel_path os_sep ".") in
  let module_parts :=
    if bool_decide (last module_parts = Some "py")
    then list_pop module_parts else module_parts in
  let module_parts :=
    if bool_decide (last module_parts = Some "__init__")
    then list_pop module_parts else module_parts in
  str_join "." (filter (fun x => str_truthy x) module_parts).

Definition _build_python_fqn
    (file_rel_path item_name : string) (parent_fqn : option string) : string :=
  let base_module_path := base_module_path_of file_rel_path in
  match parent_fqn with
  | Some parent =>
      if str_truthy parent then
        if str_truthy base_module_path && str_startswith parent base_module_path
        then
          if negb (str_endswith parent item_name)
          then parent +:+ "." +:+ item_name
          else parent
        else parent +:+ "." +:+ item_name
      else if str_truthy base_module_path
           then base_module_path +:+ "." +:+ item_name
           else item_name
  | None =>
      if str_truthy base_module_path
      then base_module_path +:+ "." +:+ item_name
      else item_name
  end.

(** The [param_info] dictionaries of a signature. *)
Record ParamInfo : Type := mkParamInfo {
  param_name : string;
  param_type : string;
  param_default_value : option string
}.

Record Signature : Type := mkSignature {
  sig_params : list ParamInfo;
  sig_return_type : string;
  sig_async : bool
}.

(** [get_node_text(n, b) if n else d] *)
Definition text_or (n : option Node) (content_bytes : bytes) (d : string)
  : string :=
  match n with
  | Some x => node_text x content_bytes
  | None => d
  end.

(** [child.named_child(0) if child.named_child_count > 0 else None] *)
Definition first_named_child (child : Node) : option Node :=
  named_child child 0.

(** The name given to a splat parameter: [f"{stars}{text}"] when its first
    named child is an identifier, otherwise [fallback]. *)
Definition splat_name (stars fallback : string) (child : Node)
    (content_bytes : bytes) : string :=
  match first_named_child child with
  | Some name_node =>
      if String.eqb (node_type name_node) "identifier"
      then stars +:+ node_text name_node content_bytes
      else fallback
  | None => fallback
  end.

(** One turn of the loop over [param_list_node.named_children]: the
    [param_info] built for [child]. *)
Definition param_info_of (child : Node) (content_bytes : bytes) : ParamInfo :=
  let ty := node_type child in
  if String.eqb ty "identifier" then
    mkParamInfo (node_text child content_bytes) "unknown" None
  else if String.eqb ty "typed_parameter" then
    let name_node :=
      match child_by_field_name child "name" with
      | Some n => Some n
      | None =>
          match children child with
          | c0 :: _ => if String.eqb (node_type c0) "identifier" then Some c0 else None
          | [] => None
          end
      end in
    let type_node := child_by_field_name child "type" in
    mkParamInfo (text_or name_node content_bytes "_anon_")
                (text_or type_node content_bytes "unknown") None
  else if String.eqb ty "default_parameter" then
    let name_node := child_by_field_name child "name" in
    let type_node := child_by_field_name child "type" in
    let value_node := child_by_field_name child "value" in
    mkParamInfo (text_or name_node content_bytes "_anon_")
                (text_or type_node content_bytes "unknown")
                (get_node_text value_node content_bytes)
  else if String.eqb ty "list_splat_pattern" || String.eqb ty "tuple_pattern" then
    mkParamInfo (splat_name "*" "*args" child content_bytes) "tuple" None
  else if String.eqb ty "dictionary_splat_pattern" then
    mkParamInfo (splat_name "**" "**kwargs" child content_bytes) "dict" None
  else if String.eqb ty "*" then
    mkParamInfo "*" "_marker_args_" None
  else if String.eqb ty "/" then
    mkParamInfo "/" "_marker_pos_only_" None
  else
    mkParamInfo "_unknown_" "unknown" None.

Definition extract_py_signature (func_node : Node) (content_bytes : bytes)
  : Signature :=
  let is_async :=
    match child_by_field_name func_node "async" with
    | Some _ => true
    | None =>
        match children func_node with
        | c0 :: _ => String.eqb (node_type c0) "async"
        | [] => false
        end
    end in
  let params :=
    match find_child_by_field_name (Some func_node) "parameters" with
    | Some param_list_node =>
        filter (fun pi => negb (String.eqb (param_name pi) "_unknown_"))
               (map (fun child => param_info_of child content_bytes)
                    (named_children param_list_node))
    | None => []
    end in
  let return_type :=
    match find_child_by_field_name (Some func_node) "return_type" with
    | Some return_type_node =>
        opt_or (get_node_text (Some return_type_node) content_bytes) "unknown"
    | None => "unknown"
    end in
  mkSignature params return_type is_async.

(** A relative path is the tuple of its parts; [str(path)]. *)
Definition path_str (parts : list string) : string :=
  match parts with
  | [] => "."
  | _ => str_join os_sep parts
  end.

(** The dictionaries returned by the extractors.  Keys that are always
    the empty list or dictionary ([logic_ops], [dependencies],
    [test_specs_covering], [setup], [action], [assertions]) are left out. *)
Record FunctionRecord : Type := mkFunctionRecord {
  fn_name : string;
  fn_qualified_name : string;
  fn_source_file : string;
  fn_language : string;
  fn_line_start : nat;
  fn_line_end : nat;
  fn_signature : Signature;
  fn_docstring : option string;
  fn_source_code : string
}.

Record FieldInfo : Type := mkFieldInfo {
  field_info_name : string;
  field_info_type : string;
  field_info_scope : string
}.

Record DataStructure : Type := mkDataStructure {
  ds_name : string;
  ds_qualified_name : string;
  ds_kind : string;
  ds_source_file : string;
  ds_language : string;
  ds_line_start : nat;
  ds_line_end : nat;
  ds_docstring : option string;
  ds_source_code : string;
  ds_base_classes : list string;
  ds_fields : list FieldInfo;
  ds_methods : list FunctionRecord
}.

Record TestSpec : Type := mkTestSpec {
  ts_id : string;
  ts_source_file : string;
  ts_scenario : string;
  ts_qualified_name : string;
  ts_language : string;
  ts_line_start : nat;
  ts_line_end : nat;
  ts_docstring : option string;
  ts_source_code : string
}.

(** [rel] stands for [file_path.relative_to(repo_root)]. *)
Definition extract_py_function_details
    (func_node : Node) (rel : list string) (content_bytes : bytes)
    (parent_fqn : option string) : option FunctionRecord :=
  let rel_path_str := path_str rel in
  let name_node := find_child_by_field_name (Some func_node) "name" in
  match get_node_text name_node content_bytes with
  | None => None
  | Some func_name =>
      if negb (str_truthy func_name) then None
      else
        let qualified_name := _build_python_fqn rel_path_str func_name parent_fqn in
        let signature := extract_py_signature func_node content_bytes in
        let source_code := node_text func_node content_bytes in
        let body_node := find_child_by_field_name (Some func_node) "body" in
        let docstring := get_docstring_from_python_node body_node content_bytes in
        Some (mkFunctionRecord func_name qualified_name rel_path_str LANG
                (start_row func_node + 1) (end_row func_node + 1)
                signature docstring source_code)
  end.

(** The class-variable heuristic on one child of a class body. *)
Definition class_field_of (child : Node) (content_bytes : bytes)
  : list FieldInfo :=
  match named_child child 0 with
  | Some expression_child =>
      if is_node_type (Some expression_child) LANG "assignment" then
        match find_child_by_field_name (Some expression_child) "left" with
        | Some left_node =>
            let field_name_text := node_text left_node content_bytes in
            if str_truthy field_name_text
               && String.eqb (node_type left_node) "identifier"
            then [mkFieldInfo field_name_text "unknown" "class"]
            else []
        | None => []
        end
      else []
  | None => []
  end.

Definition extract_py_data_structure
    (class_node : Node) (rel : list string) (content_bytes : bytes)
    (parent_fqn : option string) : option DataStructure :=
  let rel_path_str := path_str rel in
  let name_node := find_child_by_field_name (Some class_node) "name" in
  match get_node_text name_node content_bytes with
  | None => None
  | Some class_name =>
      if negb (str_truthy class_name) then None
      else
        let qualified_name := _build_python_fqn rel_path_str class_name parent_fqn in
        let source_code := node_text class_node content_bytes in
        let body_node := find_child_by_field_name (Some class_node) "body" in
        let docstring := get_docstring_from_python_node body_node content_bytes in
        let base_classes :=
          match find_child_by_field_name (Some class_node) "superclasses" with
          | Some superclasses_node =>
              filter (fun base_name => str_truthy base_name)
                     (map (fun sc_node => node_text sc_node content_bytes)
                          (named_children superclasses_node))
          | None => []
          end in
        let body_children :=
          match body_node with
          | Some b => children b
          | None => []
          end in
        let methods :=
          omap (fun child =>
                  if is_node_type (Some child) LANG "func_def"
                  then extract_py_function_details child rel content_bytes
                         (Some qualified_name)
                  else None)
               body_children in
        let fields :=
          flat_map (fun child =>
                      if is_node_type (Some child) LANG "func_def" then []
                      else if is_node_type (Some child) LANG "expression_statement"
                      then class_field_of child content_bytes
                      else [])
                   body_children in
        Some (mkDataStructure class_name qualified_name "class" rel_path_str LANG
                (start_row class_node + 1) (end_row class_node + 1)
                docstring source_code base_classes fields methods)
  end.

Definition extract_py_test_specifications
    (func_node : Node) (rel : list string) (content_bytes : bytes)
  : list TestSpec :=
  let rel_path_str := path_str rel in
  let name_node := find_child_by_field_name (Some func_node) "name" in
  match get_node_text name_node content_bytes with
  | None => []
  | Some test_name =>
      if negb (str_truthy test_name) then []
      else
        let test_module_path :=
          str_replace (str_replace rel_path_str os_sep ".") ".py" "" in
        let qualified_name := test_module_path +:+ "." +:+ test_name in
        [mkTestSpec qualified_name rel_path_str test_name qualified_name LANG
           (start_row func_node + 1) (end_row func_node + 1)
           (get_docstring_from_python_node
              (find_child_by_field_name (Some func_node) "body") content_bytes)
           (node_text func_node content_bytes)]
  end.

(* --------------------------------------------------------------- *)
(** *** [cli.py] *)

(** [LANG_MAP]: file suffix to language name, in insertion order
    ([main] may add [".pyi"]). *)
Variable LANG_MAP : list (string * string).

(** [PurePosixPath(s).parts]: the root, if any, then the non-empty
    segments other than ["."]. *)
Definition path_parts (s : string) : list string :=
  let root :=
    if str_startswith s "//" && negb (str_startswith s "///") then ["//"]
    else if str_startswith s "/" then ["/"]
    else [] in
  root ++ filter (fun seg => str_truthy seg && negb (String.eqb seg "."))
                 (str_split "/"%char s).

(** [Path(name).suffix] and [Path(name).stem] for a final component:
    the last dot counts when it is neither first nor last. *)
Definition path_suffix (name : string) : string :=
  match str_rfind "."%char name with
  | Some i =>
      if Nat.ltb 0 i && Nat.ltb i (String.length name - 1)
      then str_drop i name else ""
  | None => ""
  end.

Definition path_stem (name : string) : string :=
  match str_rfind "."%char name with
  | Some i =>
      if Nat.ltb 0 i && Nat.ltb i (String.length name - 1)
      then str_take i name else name
  | None => name
  end.

Definition module_root_names : list string := ["__init__"; "mod"; "lib"].

Definition find_component_id_for_lib (rel_path_str library_name : string)
  : string :=
  let parts := path_parts rel_path_str in
  let parts :=
    match last parts with
    | None => parts
    | Some final =>
        let known_suffixes := map fst LANG_MAP ++ [".pyi"] in
        let final :=
          if str_endswith_any final known_suffixes then path_stem final
          else final in
        let parts := list_pop parts ++ [final] in
        if str_in final module_root_names then
          if Nat.ltb 1 (length parts) then list_pop parts
          else if negb (String.eqb final library_name) then list_pop parts
          else parts
        else parts
    end in
  match parts with
  | [] => library_name
  | _ => library_name +:+ "." +:+ str_join "." parts
  end.

Record Component : Type := mkComponent {
  component_id : string;
  component_type : string;
  source_path : string;
  summary : string;
  data_structures : list DataStructure;
  functions : list FunctionRecord;
  test_specifications : list TestSpec
}.

(** The process-wide state [process_file] reads and writes: the parser
    pool and the two keys of [repo_ir] it touches.  [components] is a
    [dict]; its insertion order is what [main] finally emits. *)
Record World : Type := mkWorld {
  pool : Pool;
  languages_present : gset string;
  components : list (string * Component)
}.

(** A file below the analysis root: its path relative to the root, and
    what [open(file_path, 'rb').read()] yields ([None] when it raises). *)
Record SourceFile : Type := mkSourceFile {
  rel_parts : list string;
  content : option bytes
}.

(** [k in d], [d.get(k)] *)
Definition dict_mem {V : Type} (k : string) (d : list (string * V)) : bool :=
  existsb (fun kv => String.eqb k (fst kv)) d.

(** In-place mutation of the value stored under [k]. *)
Definition dict_update {V : Type} (k : string) (f : V -> V)
    (d : list (string * V)) : list (string * V) :=
  map (fun kv => if String.eqb k (fst kv) then (fst kv, f (snd kv)) else kv) d.

(** [is_test_file] *)
Definition is_test_file (file_path_parts : list string) (file_name : string)
  : bool :=
  str_contains (str_lower file_name) "test"
  || existsb (fun p => str_in (str_lower p) ["test"; "tests"]) file_path_parts.

(** The three lists a file contributes. *)
Record NewRecords : Type := mkNewRecords {
  new_structs : list DataStructure;
  new_funcs : list FunctionRecord;
  new_tests : list TestSpec
}.

Definition set_ds_language (lang : string) (d : DataStructure) : DataStructure :=
  mkDataStructure (ds_name d) (ds_qualified_name d) (ds_kind d)
    (ds_source_file d) lang (ds_line_start d) (ds_line_end d)
    (ds_docstring d) (ds_source_code d) (ds_base_classes d) (ds_fields d)
    (ds_methods d).

Definition set_fn_language (lang : string) (f : FunctionRecord) : FunctionRecord :=
  mkFunctionRecord (fn_name f) (fn_qualified_name f) (fn_source_file f) lang
    (fn_line_start f) (fn_line_end f) (fn_signature f) (fn_docstring f)
    (fn_source_code f).

(** The body of [for node in root_node.children]: what one top-level
    node appends to each of the three lists. *)
Definition route_top_level
    (node : Node) (lang : string) (rel : list string) (content_bytes : bytes)
    (target_name_for_fqn : string) (test_file : bool) : NewRecords :=
  let current_parent_fqn :=
    find_component_id_for_lib (path_str rel) target_name_for_fqn in
  if is_node_type (Some node) lang "class_def" then
    match extract_py_data_structure node rel content_bytes
            (Some current_parent_fqn) with
    | Some struct_data => mkNewRecords [set_ds_language lang struct_data] [] []
    | None => mkNewRecords [] [] []
    end
  else if is_node_type (Some node) lang "func_def" then
    let name_node := find_child_by_field_name (Some node) "name" in
    let func_name_text := opt_or (get_node_text name_node content_bytes) "" in
    let is_test_func_by_name := str_startswith func_name_text "test_" in
    if test_file || is_test_func_by_name then
      mkNewRecords [] [] (extract_py_test_specifications node rel content_bytes)
    else
      match extract_py_function_details node rel content_bytes
              (Some current_parent_fqn) with
      | Some func_data => mkNewRecords [] [set_fn_language lang func_data] []
      | None => mkNewRecords [] [] []
      end
  else mkNewRecords [] [] [].

Definition add_records (acc r : NewRecords) : NewRecords :=
  mkNewRecords (new_structs acc ++ new_structs r)
               (new_funcs acc ++ new_funcs r)
               (new_tests acc ++ new_tests r).

Definition top_level_records
    (root_node : Node) (lang : string) (rel : list string) (content_bytes : bytes)
    (target_name_for_fqn : string) (test_file : bool) : NewRecords :=
  fold_left
    (fun acc node =>
       add_records acc
         (route_top_level node lang rel content_bytes target_name_for_fqn test_file))
    (children root_node) (mkNewRecords [] [] []).

(** [str(Path(s))] for any string [s]: the parts joined by the
    separator, a root (["/"] or ["//"]) standing right before the first
    segment; ["."] for a path without parts. *)
Definition str_of_Path (s : string) : string :=
  match path_parts s with
  | [] => "."
  | first :: rest =>
      if str_startswith first "/" then first +:+ str_join os_sep rest
      else str_join os_sep (first :: rest)
  end.

Definition fresh_component (cid lang : string) : Component :=
  mkComponent cid (lang +:+ "_module")
    (str_of_Path (str_replace cid "." os_sep))
    ("Code component: " +:+ cid) [] [] [].

(** The three [extend] calls. *)
Definition extend_component (r : NewRecords) (c : Component) : Component :=
  mkComponent (component_id c) (component_type c) (source_path c) (summary c)
    (data_structures c ++ new_structs r)
    (functions c ++ new_funcs r)
    (test_specifications c ++ new_tests r).

(** The guards at the head of [process_file]: the language under which
    the file goes on to be read, or [None] when the function returns at
    once (ignored directory or file name, unmapped suffix, not Python).
    [root] stands for [root_for_analysis.parts]; the file's own path is
    [root ++ rel]. *)
Definition file_language (rel root : list string) : option string :=
  let file_name := default "" (last (root ++ rel)) in
  if existsb (fun part => str_in part IGNORE_DIRS) rel
     || str_in file_name IGNORE_FILES
  then None
  else
    let extension := str_lower (path_suffix file_name) in
    match assoc_get extension LANG_MAP with
    | None => None
    | Some lang =>
        if negb (str_truthy lang) || negb (String.eqb lang "python") then None
        else Some lang
    end.

(** Diagnostics are not part of the state. *)
Definition process_file (file : SourceFile) (root : list string)
    (target_name_for_fqn : string) (w : World) : World :=
  let rel := rel_parts file in
  let file_path_parts := root ++ rel in
  let file_name := default "" (last file_path_parts) in
  let rel_path_str := path_str rel in
  match file_language rel root with
  | None => w
  | Some lang =>
      let test_file := is_test_file file_path_parts file_name in
      let present := {[ lang ]} ∪ languages_present w in
      match content file with
      | None => mkWorld (pool w) present (components w)
      | Some content_bytes =>
          match parse_code content_bytes lang (pool w) with
          | (None, pool') => mkWorld pool' present (components w)
          | (Some root_node, pool') =>
              let cid :=
                find_component_id_for_lib rel_path_str target_name_for_fqn in
              let comps :=
                if dict_mem cid (components w) then components w
                else components w ++ [(cid, fresh_component cid lang)] in
              let r :=
                top_level_records root_node lang rel content_bytes
                  target_name_for_fqn test_file in
              mkWorld pool' present (dict_update cid (extend_component r) comps)
          end
      end
  end.

(** The parser [parse_code] ends up using for [lang], if any. *)
Definition parser_of (lang : string) (p : Pool) : option Parser :=
  fst (_initialize_parser lang p).

(** The component id under which [process_file] files the records of
    [file], when it gets as far as aggregating them: the guards pass, the
    file can be read and a parser is available. *)
Definition aggregated_id (file : SourceFile) (root : list string)
    (target_name_for_fqn : string) (p : Pool) : option string :=
  match file_language (rel_parts file) root with
  | None => None
  | Some lang =>
      match content file, parser_of lang p with
      | Some _, Some _ =>
          Some (find_component_id_for_lib (path_str (rel_parts file))
                  target_name_for_fqn)
      | _, _ => None
      end
  end.

(** The ids under which the files of the targets are aggregated, in
    processing order ([None] for a file that is skipped). *)
Definition id_trace (p : Pool)
    (targets : list (list string * string * list SourceFile))
  : list (option string) :=
  flat_map (fun '(root, t, files) => map (fun f => aggregated_id f root t p) files)
           targets.

(** The double loop of [main] over targets and their files (as
    [rglob] lists them), then [list(repo_ir["components"].values())]. *)
Definition process_target (w : World)
    (target : list string * string * list SourceFile) : World :=
  let '(root, target_name, files) := target in
  fold_left (fun w file => process_file file root target_name w) files w.

Definition final_components (w : World) : list Component :=
  map snd (components w).

Definition main_components (w0 : World)
    (targets : list (list string * string * list SourceFile)) : list Component :=
  final_components (fold_left process_target targets w0).

End Sources.

(* ================================================================= *)
(** ** A concrete runtime and worked inputs

    Buffers below are 7-bit text, on which UTF-8 decoding is the identity
    on characters.  A grammar is represented by the trees it yields for the
    buffers of interest (and an empty module elsewhere). *)

Definition ascii_decode : bytes -> string := string_of_list_byte.

Definition Grammar : Type := bytes -> Node.

Definition tok (ty : string) (a b : nat) : Node :=
  mkNode ty false None a b 0 0 [].

Definition leaf (ty : string) (a b : nat) : Node :=
  mkNode ty true None a b 0 0 [].

Definition tree (ty : string) (a b : nat) (cs : list Node) : Node :=
  mkNode ty true None a b 0 0 cs.

Definition fld (f : string) (n : Node) : Node :=
  mkNode (node_type n) (is_named n) (Some f) (start_byte n) (end_byte n)
         (start_row n) (end_row n) (children n).

Definition rows (r1 r2 : nat) (n : Node) : Node :=
  mkNode (node_type n) (is_named n) (field_name n) (start_byte n) (end_byte n)
         r1 r2 (children n).

Definition grammar_of (table : list (string * Node)) : Grammar :=
  fun bs => default (tree "module" 0 0 []) (assoc_get (ascii_decode bs) table).

Definition demo_LANG_CONFIG (g : Grammar) : gmap string (LanguageConfig Grammar) :=
  {[ "python" := python_config g ]}.

Definition demo_new_parser (g : Grammar) : option Grammar := Some g.
Definition demo_compile_query (g : Grammar) (src : string) : option string := Some src.
Definition demo_ts_parse (p : Grammar) (bs : bytes) : Node := p bs.
Definition demo_LANG_MAP : list (string * string) := [(".py", "python")].

Definition empty_pool : @Pool Grammar string := mkPool ∅ ∅.
Definition empty_world : @World Grammar string := mkWorld empty_pool ∅ [].

Definition demo_process_file (g : Grammar) :=
  process_file ascii_decode (demo_LANG_CONFIG g) demo_new_parser
    demo_compile_query demo_ts_parse demo_LANG_MAP.

Definition demo_main_components (g : Grammar) :=
  main_components ascii_decode (demo_LANG_CONFIG g) demo_new_parser
    demo_compile_query demo_ts_parse demo_LANG_MAP.

(** *** [def f(a, b: T = 5, *args, **kwargs): pass] *)

Definition sig_src : string := "def f(a, b: T = 5, *args, **kwargs): pass".

(** The parameter [b: T = 5] under a given node type for it. *)
Definition sig_param_b (ty : string) : Node :=
  tree ty 9 17
    [ fld "name" (leaf "identifier" 9 10); tok ":" 10 11;
      fld "type" (tree "type" 12 13 [leaf "identifier" 12 13]);
      tok "=" 14 15; fld "value" (leaf "integer" 16 17) ].

Definition sig_func (ty_b : string) : Node :=
  tree "function_definition" 0 41
    [ tok "def" 0 3;
      fld "name" (leaf "identifier" 4 5);
      fld "parameters"
        (tree "parameters" 5 35
           [ tok "(" 5 6; leaf "identifier" 6 7; tok "," 7 8;
             sig_param_b ty_b; tok "," 17 18;
             tree "list_splat_pattern" 19 24
               [tok "*" 19 20; leaf "identifier" 20 24];
             tok "," 24 25;
             tree "dictionary_splat_pattern" 26 34
               [tok "**" 26 28; leaf "identifier" 28 34];
             tok ")" 34 35 ]);
      tok ":" 35 36;
      fld "body" (tree "block" 37 41 [tree "pass_statement" 37 41 [tok "pass" 37 41]]) ].

(** tree-sitter-python's grammar has a rule of its own for a parameter
    with both an annotation and a default. *)
Definition sig_func_grammar : Node := sig_func "typed_default_parameter".

(** The shape the [default_parameter] arm of the extractor reads. *)
Definition sig_func_anticipated : Node := sig_func "default_parameter".

(** *** A function whose body opens with a block string *)

Definition doc_src : string :=
  "def f():" +:+ nl +:+
  "    " +:+ dq +:+ dq +:+ dq +:+ nl +:+
  "    line one" +:+ nl +:+
  "    line two" +:+ nl +:+
  "    " +:+ dq +:+ dq +:+ dq +:+ nl.

(** The body block, for given children of the [string] node. *)
Definition doc_body (string_children : list Node) : Node :=
  tree "block" 13 50
    [ tree "expression_statement" 13 50 [ tree "string" 13 50 string_children ] ].

(** Current grammar: named [string_start], [string_content], [string_end]. *)
Definition doc_body_grammar : Node :=
  doc_body [ leaf "string_start" 13 16; leaf "string_content" 16 47;
             leaf "string_end" 47 50 ].

(** Earlier grammar: both delimiters aliased to the anonymous
    one-character double-quote token, the content hidden. *)
Definition doc_body_grammar_old : Node :=
  doc_body [ tok dq 13 16; tok dq 47 50 ].

(** The shape the comment in the extractor describes: delimiter tokens
    typed by their text around a [string_content]. *)
Definition doc_body_anticipated : Node :=
  doc_body [ tok (dq +:+ dq +:+ dq) 13 16; leaf "string_content" 16 47;
             tok (dq +:+ dq +:+ dq) 47 50 ].

(** A body whose first statement is not a string. *)
Definition doc_body_pass : Node :=
  tree "block" 13 17 [ tree "pass_statement" 13 17 [tok "pass" 13 17] ].

(** *** Three outer doc comments before a Rust item *)

Definition rs_src : string :=
  "/// a" +:+ nl +:+ "/// b" +:+ nl +:+ "/// c" +:+ nl +:+ "fn f() {}" +:+ nl.

Definition rs_item : Node :=
  tree "function_item" 18 27
    [ tok "fn" 18 20; fld "name" (leaf "identifier" 21 22);
      fld "parameters" (tree "parameters" 22 24 [tok "(" 22 23; tok ")" 23 24]);
      fld "body" (tree "block" 25 27 [tok "{" 25 26; tok "}" 26 27]) ].


(** *** A class [Outer] with a method [Foo] *)

Definition cls_src : string :=
  "class Outer:" +:+ nl +:+ "    def Foo(self):" +:+ nl +:+ "        pass" +:+ nl.

Definition cls_method : Node :=
  rows 1 2
    (tree "function_definition" 17 44
       [ tok "def" 17 20; fld "name" (leaf "identifier" 21 24);
         fld "parameters"
           (tree "parameters" 24 30 [tok "(" 24 25; leaf "identifier" 25 29; tok ")" 29 30]);
         tok ":" 30 31;
         fld "body" (tree "block" 40 44 [tree "pass_statement" 40 44 [tok "pass" 40 44]]) ]).

Definition cls_module : Node :=
  rows 0 3
    (tree "module" 0 45
       [ rows 0 2
           (tree "class_definition" 0 44
              [ tok "class" 0 5; fld "name" (leaf "identifier" 6 11); tok ":" 11 12;
                fld "body" (rows 1 2 (tree "block" 17 44 [cls_method])) ]) ]).

(** *** Two functions [foo], [bar] in one file, [baz] in another *)

Definition foobar_src : string :=
  "def foo():" +:+ nl +:+ "    pass" +:+ nl +:+
  "def bar():" +:+ nl +:+ "    pass" +:+ nl.

Definition baz_src : string := "def baz():" +:+ nl +:+ "    pass" +:+ nl.

(** [def <name>(): pass] starting at byte [a] and row [r]. *)
Definition simple_def (a r : nat) : Node :=
  rows r (r + 1)
    (tree "function_definition" a (a + 19)
       [ tok "def" a (a + 3); fld "name" (leaf "identifier" (a + 4) (a + 7));
         fld "parameters"
           (tree "parameters" (a + 7) (a + 9) [tok "(" (a + 7) (a + 8); tok ")" (a + 8) (a + 9)]);
         tok ":" (a + 9) (a + 10);
         fld "body"
           (tree "block" (a + 15) (a + 19)
              [tree "pass_statement" (a + 15) (a + 19) [tok "pass" (a + 15) (a + 19)]]) ]).

Definition foobar_module : Node :=
  rows 0 4 (tree "module" 0 40 [simple_def 0 0; simple_def 20 2]).

Definition baz_module : Node :=
  rows 0 2 (tree "module" 0 20 [simple_def 0 0]).

Definition demo_grammar : Grammar :=
  grammar_of
    [ (cls_src, cls_module); (foobar_src, foobar_module); (baz_src, baz_module) ].

Definition file_of (rel : list string) (src : string) : SourceFile :=
  mkSourceFile rel (Some (list_byte_of_string src)).

(** *** A registry in which one query does not compile *)

Definition flaky_queries : list (string * string) :=
  [ ("functions", "(function_definition) @f");
    ("broken", "(function_definition");
    ("classes", "(class_definition) @c") ].

Definition flaky_LANG_CONFIG : gmap string (LanguageConfig Grammar) :=
  {[ "python" := mkLanguageConfig (Some demo_grammar) flaky_queries python_node_types ]}.

(** Compilation rejects the unbalanced source. *)
Definition flaky_compile_query (g : Grammar) (src : string) : option string :=
  if String.eqb src "(function_definition" then None else Some src.

(** [captures] of a compiled query: the node itself, tagged by the source. *)
Definition demo_captures (q : string) (n : Node) : option (list (Node * string)) :=
  Some [(n, q)].

(** *** Reading qualified names off the output *)

(** The qualified names of the methods of the structures of [cs]. *)
Definition method_fqns (cs : list Component) : list string :=
  flat_map (fun c =>
              flat_map (fun d => map fn_qualified_name (ds_methods d))
                       (data_structures c))
           cs.

(** The run over the single file [rel] holding [cls_src], for target [pkg]
    rooted at [/srv/pkg]. *)
Definition cls_run (rel : list string) : list Component :=
  demo_main_components demo_grammar empty_world
    [ (["/"; "srv"; "pkg"], "pkg", [file_of rel cls_src]) ].

(** *** Runs of the aggregator *)

Definition demo_root : list string := ["/"; "srv"; "pkg"].

(** Two empty modules, listed as [b.py] then [a.py]. *)
Definition unsorted_run : list Component :=
  demo_main_components demo_grammar empty_world
    [ (demo_root, "pkg", [file_of ["b.py"] ""; file_of ["a.py"] ""]) ].

(** [m.py] holds [foo] and [bar]; [m/__init__.py] holds [baz]; both map
    to the component [pkg.m]. *)
Definition world_after_m : @World Grammar string :=
  demo_process_file demo_grammar (file_of ["m.py"] foobar_src) demo_root "pkg"
    empty_world.

Definition world_after_m_init : @World Grammar string :=
  demo_process_file demo_grammar (file_of ["m"; "__init__.py"] baz_src)
    demo_root "pkg" world_after_m.

(* ================================================================= *)
(** ** Well-formed paths, and two more extractors *)

(** The first character of [s], if any, does not satisfy [p]. *)
Definition no_lead (p : ascii -> bool) (s : string) : Prop :=
  match s with
  | EmptyString => True
  | String a _ => p a = false
  end.

(** [c not in s] *)
Definition str_free (c : ascii) (s : string) : bool :=
  str_forallb (fun a => negb (Ascii.eqb a c)) s.

(** A component of a relative path as [pathlib] keeps it: non-empty,
    not ["."], and without a separator. *)
Definition part_clean (p : string) : Prop :=
  p <> "" /\ p <> "." /\ str_free "/" p = true.

(** A dotted-name segment: a clean path component without a dot. *)
Definition segment_clean (p : string) : Prop :=
  p <> "" /\ str_free "/" p = true /\ str_free "." p = true.

(** [s.split(c)[0]] *)
Definition split_head (c : ascii) (s : string) : string :=
  match str_split c s with
  | w :: _ => w
  | [] => ""
  end.

(** [metadata_parser.py], the PEP 621 arm of the dependency loop: the
    name part of a requirement string. *)
Definition requirement_name_part (req_str : string) : string :=
  str_strip
    (split_head "~"
       (split_head "="
          (split_head ">"
             (split_head "<"
                (split_head "[" req_str))))).

Record Dependency : Type := mkDependency {
  dep_name : string;
  dep_version_spec : string;
  dep_source : string
}.

(** [for req_str in deps_raw: ... if name_part: metadata["dependencies"].append(...)] *)
Definition pep621_dependencies (deps_raw : list string) : list Dependency :=
  flat_map
    (fun req_str =>
       let name_part := requirement_name_part req_str in
       if str_truthy name_part then [mkDependency name_part req_str "pypi"] else [])
    deps_raw.

(** [s[:-3]] *)
Definition str_drop_last3 (s : string) : string :=
  str_take (String.length s - 3) s.

(** [extract_rust.py], the "basic FQN construction" shared by
    [extract_rs_function_details] and [extract_rs_data_structure].
    [None] stands for the [IndexError] of [module_path_parts[-1]] on an
    empty path. *)
Definition rust_qualified_name (rel_path_str name : string) : option string :=
  let module_path_parts := path_parts rel_path_str in
  match last module_path_parts with
  | None => None
  | Some final =>
      let module_path_parts :=
        if String.eqb final "mod.rs" || String.eqb final "lib.rs"
        then list_pop module_path_parts
        else if str_endswith final ".rs"
        then list_pop module_path_parts ++ [str_drop_last3 final]
        else module_path_parts in
      let fqn_parts :=
        filter (fun part => str_truthy part && negb (String.eqb part "src"))
               module_path_parts in
      Some (str_join "::" (fqn_parts ++ [name]))
  end.

(** *** A block doc comment, and a comment cut off from its item *)

Definition rs_block_src : string :=
  "/** first" +:+ nl +:+ " * second */" +:+ nl +:+ "fn f() {}" +:+ nl.

Definition rs_block_comment : Node := leaf "block_comment" 0 22.

Definition rs_block_item : Node :=
  tree "function_item" 23 32
    [ tok "fn" 23 25; fld "name" (leaf "identifier" 26 27);
      fld "parameters" (tree "parameters" 27 29 [tok "(" 27 28; tok ")" 28 29]);
      fld "body" (tree "block" 30 32 [tok "{" 30 31; tok "}" 31 32]) ].

(** A comment node is one of the two comment kinds. *)
Definition is_rust_comment (c : Node) : Prop :=
  str_in (node_type c) rust_comment_types = true.

(** The class node of [cls_module]. *)
Definition cls_class : Node := nth 0 (children cls_module) cls_module.

(** The pool once Python has been initialised under [flaky_LANG_CONFIG]. *)
Definition pool_after_python : @Pool Grammar string :=
  snd (_initialize_parser flaky_LANG_CONFIG demo_new_parser flaky_compile_query
         "python" empty_pool).

(** [ast_utils.initialize_parsers], once [load_language_configs] has
    filled the registry: exit ([None]) on an empty registry, otherwise one
    [_initialize_parser] per registered language. *)
Definition initialize_parsers {Language Parser Query : Type}
    (LANG_CONFIG : gmap string (LanguageConfig Language))
    (new_parser : Language -> option Parser)
    (compile_query : Language -> string -> option Query)
    (st : @Pool Parser Query) : option (@Pool Parser Query) :=
  if decide (LANG_CONFIG = ∅) then None
  else
    Some (fold_left
            (fun st lang_name =>
               snd (_initialize_parser LANG_CONFIG new_parser compile_query
                      lang_name st))
            (map fst (map_to_list LANG_CONFIG)) st).

(** *** A struct with an inner block doc comment after three outer ones *)




(** *** A decorated top-level function *)

Definition decorated_src : string :=
  "@dec" +:+ nl +:+ "def foo():" +:+ nl +:+ "    pass" +:+ nl.

(** [def foo(): pass] at byte 5, row 1, as the [definition] of a
    [decorated_definition] node. *)
Definition decorated_def : Node :=
  rows 0 2
    (tree "decorated_definition" 0 24
       [ tree "decorator" 0 4 [tok "@" 0 1; leaf "identifier" 1 4];
         fld "definition" (simple_def 5 1) ]).

Definition decorated_module : Node :=
  rows 0 3 (tree "module" 0 25 [decorated_def]).

Definition decorated_grammar : Grammar :=
  grammar_of [ (decorated_src, decorated_module) ].

(** The store after processing a file that holds [decorated_src]. *)
Definition world_after_decorated (rel : list string) : @World Grammar string :=
  demo_process_file decorated_grammar (file_of rel decorated_src) demo_root "pkg"
    empty_world.

(* ================================================================= *)
(** ** Facts about the string primitives *)

Lemma str_startswith_app (p t : string) : str_startswith (p +:+ t) p = true.
Proof.
  induction p as [|a p IH]; simpl.
  - now destruct t.
  - rewrite Ascii.eqb_refl. exact IH.
Qed.

Lemma str_startswith_spec (s p : string) :
  str_startswith s p = true <-> exists t, s = p +:+ t.
Proof.
  split.
  - revert s. induction p as [|a p IH]; intros s H.
    + exists s. reflexivity.
    + destruct s as [|b s]; simpl in H; [discriminate|].
      apply andb_true_iff in H as [Hab Hrest].
      apply Ascii.eqb_eq in Hab. subst b.
      destruct (IH _ Hrest) as [t ->]. exists t. reflexivity.
  - intros [t ->]. apply str_startswith_app.
Qed.

Lemma str_length_app (s t : string) :
  String.length (s +:+ t) = String.length s + String.length t.
Proof. induction s as [|a s IH]; simpl; [reflexivity | now rewrite IH]. Qed.

Lemma str_drop_app (s t : string) : str_drop (String.length s) (s +:+ t) = t.
Proof. induction s as [|a s IH]; simpl; [now destruct t | exact IH]. Qed.

Lemma str_take_drop (n : nat) (s : string) : str_take n s +:+ str_drop n s = s.
Proof.
  revert s. induction n as [|n IH]; intros [|a s]; try reflexivity.
  change (String a (str_take n s +:+ str_drop n s) = String a s).
  now rewrite IH.
Qed.

Lemma str_endswith_spec (s p : string) :
  str_endswith s p = true <-> exists t, s = t +:+ p.
Proof.
  unfold str_endswith. split.
  - intros H. apply andb_true_iff in H as [_ H].
    apply String.eqb_eq in H.
    set (k := String.length s - String.length p) in *.
    exists (str_take k s). rewrite <- H. symmetry. apply str_take_drop.
  - intros [t ->]. rewrite str_length_app. apply andb_true_iff. split.
    + apply Nat.leb_le. lia.
    + replace (String.length t + String.length p - String.length p)
        with (String.length t) by lia.
      rewrite str_drop_app. apply String.eqb_refl.
Qed.

Lemma str_truthy_true (s : string) : str_truthy s = true <-> s <> "".
Proof.
  unfold str_truthy. rewrite negb_true_iff. apply String.eqb_neq.
Qed.

Lemma bytes_slice_length (bs : bytes) (a b : nat) :
  b <= length bs -> length (bytes_slice bs a b) = b - a.
Proof.
  intros H. unfold bytes_slice. rewrite length_take, length_drop. lia.
Qed.

Lemma bytes_slice_lookup (bs : bytes) (a b i : nat) :
  i < b - a -> bytes_slice bs a b !! i = bs !! (a + i).
Proof.
  intros H. unfold bytes_slice.
  rewrite lookup_take_lt by exact H. apply lookup_drop.
Qed.

(* ================================================================= *)
(** ** Text slicing *)

Section TextSlicing.

Variable decode : bytes -> string.

(** C8. [get_node_text] is total on every present node: inside the
    buffer ([start < end <= len]) it returns the decoded slice
    [[start, end)]; for an empty or out-of-range extent it returns the
    empty string; it never fails to return a string. *)
Theorem get_node_text_total (n : Node) (content_bytes : bytes) :
  (start_byte n < end_byte n <= length content_bytes ->
     get_node_text decode (Some n) content_bytes
     = Some (decode (bytes_slice content_bytes (start_byte n) (end_byte n))))
  /\ (~ (start_byte n < end_byte n <= length content_bytes) ->
        get_node_text decode (Some n) content_bytes = Some "")
  /\ (exists s, get_node_text decode (Some n) content_bytes = Some s).
Proof.
  unfold get_node_text, node_text.
  destruct (Nat.ltb_spec (start_byte n) (end_byte n)) as [Hlt|Hge];
    destruct (Nat.leb_spec (end_byte n) (length content_bytes)) as [Hle|Hgt];
    simpl; repeat split; intros; try reflexivity; try lia; eauto.
Qed.

End TextSlicing.

(** The identifier [f] of [sig_src]: bytes [[4, 5)]. *)
Lemma get_node_text_total_witness :
  4 < 5 <= length (list_byte_of_string sig_src)
  /\ get_node_text ascii_decode (Some (leaf "identifier" 4 5))
       (list_byte_of_string sig_src) = Some "f".
Proof.
  assert (H : 4 < 5 <= length (list_byte_of_string sig_src))
    by (vm_compute; lia).
  split; [exact H|].
  destruct (get_node_text_total ascii_decode (leaf "identifier" 4 5)
              (list_byte_of_string sig_src)) as [Hin _].
  rewrite (Hin H). reflexivity.
Defined.

(* ================================================================= *)
(** ** The Python FQN builder *)

(** C9, as first stated: whenever the parent FQN starts with the module
    base path and ends with the item name, the parent FQN is returned.  It
    fails when the base path is empty (a root [__init__.py]): the builder
    then guards the prefix test off and appends the name once more. *)
Lemma build_python_fqn_absorb_needs_base :
  ~ (forall path n p : string,
        (exists t, p = base_module_path_of path +:+ t) ->
        (exists u, p = u +:+ n) ->
        _build_python_fqn path n (Some p) = p).
Proof.
  intros H.
  specialize (H "__init__.py" "Foo" "pkg.Foo").
  assert (E : _build_python_fqn "__init__.py" "Foo" (Some "pkg.Foo") = "pkg.Foo").
  { apply H.
    - exists "pkg.Foo". reflexivity.
    - exists "pkg.". reflexivity. }
  vm_compute in E. discriminate E.
Qed.

(** C9, amended.  For every path whose module base path is non-empty,
    every item name [n] and every parent FQN [p] that starts with the base
    path: if [p] ends with the string [n] then the built FQN is [p] itself.
    The suffix test is on characters, not on dotted segments. *)
Theorem build_python_fqn_absorbs_suffix (path n p : string) :
  base_module_path_of path <> "" ->
  (exists t, p = base_module_path_of path +:+ t) ->
  (exists u, p = u +:+ n) ->
  _build_python_fqn path n (Some p) = p.
Proof.
  intros Hbase Hpre Hsuf.
  apply str_startswith_spec in Hpre. apply str_endswith_spec in Hsuf.
  apply str_truthy_true in Hbase.
  assert (Hp : str_truthy p = true).
  { apply str_truthy_true. intros ->.
    destruct (base_module_path_of path); [discriminate Hbase | discriminate Hpre]. }
  unfold _build_python_fqn. rewrite Hp, Hbase, Hpre, Hsuf. reflexivity.
Qed.

(** A method [Foo] of [sub.m.MyFoo] in [sub/m.py] gets the FQN of its
    class: ["MyFoo"] merely ends in the characters ["Foo"]. *)
Lemma build_python_fqn_absorbs_suffix_witness :
  base_module_path_of "sub/m.py" = "sub.m"
  /\ _build_python_fqn "sub/m.py" "Foo" (Some "sub.m.MyFoo") = "sub.m.MyFoo".
Proof.
  split; [reflexivity|].
  apply (build_python_fqn_absorbs_suffix "sub/m.py" "Foo" "sub.m.MyFoo").
  - vm_compute. discriminate.
  - exists ".MyFoo". reflexivity.
  - exists "sub.m.My". reflexivity.
Defined.

(* ================================================================= *)
(** ** The parser pool *)

Section ParserPool.

Context {Language Parser Query : Type}.
Variable LANG_CONFIG : gmap string (LanguageConfig Language).
Variable new_parser : Language -> option Parser.
Variable compile_query : Language -> string -> option Query.
Variable ts_parse : Parser -> bytes -> Node.
Variable captures : Query -> Node -> option (list (Node * string)).

Local Abbreviation init := (_initialize_parser LANG_CONFIG new_parser compile_query).
Local Abbreviation pool_step :=
  (pool_step LANG_CONFIG new_parser compile_query ts_parse).

Lemma compile_queries_fold_absent (l : Language) (k : string)
    (qs : list (string * string)) (acc : gmap string Query) :
  acc !! k = None ->
  (forall src, (k, src) ∈ qs -> compile_query l src = None) ->
  fold_left
    (fun acc '(query_name, query_string) =>
       match compile_query l query_string with
       | Some q => <[query_name := q]> acc
       | None => acc
       end) qs acc !! k = None.
Proof.
  revert acc. induction qs as [|[k' src'] qs IH]; intros acc Hacc Hfail; simpl.
  - exact Hacc.
  - apply IH.
    + destruct (compile_query l src') as [q|] eqn:Hc; [|exact Hacc].
      destruct (decide (k' = k)) as [->|Hne].
      * rewrite (Hfail src') in Hc by (left). discriminate Hc.
      * rewrite lookup_insert_ne by exact Hne. exact Hacc.
    + intros src Hin. apply Hfail. right. exact Hin.
Qed.

Lemma compile_queries_absent (l : Language) (k : string)
    (qs : list (string * string)) :
  (forall src, (k, src) ∈ qs -> compile_query l src = None) ->
  compile_queries compile_query l qs !! k = None.
Proof.
  intros H. unfold compile_queries.
  apply compile_queries_fold_absent; [apply lookup_empty | exact H].
Qed.

Lemma compile_queries_fold_present (l : Language) (k : string)
    (qs : list (string * string)) (acc : gmap string Query) :
  is_Some (acc !! k) \/ (exists src, (k, src) ∈ qs /\ is_Some (compile_query l src)) ->
  is_Some (fold_left
    (fun acc '(query_name, query_string) =>
       match compile_query l query_string with
       | Some q => <[query_name := q]> acc
       | None => acc
       end) qs acc !! k).
Proof.
  revert acc. induction qs as [|[k' src'] qs IH]; intros acc H; simpl.
  - destruct H as [H|(src & Hin & _)]; [exact H | inversion Hin].
  - apply IH. destruct H as [H|(src & Hin & Hc)].
    + left. destruct (compile_query l src'); [|exact H].
      destruct (decide (k' = k)) as [->|Hne].
      * rewrite lookup_insert_eq. eauto.
      * rewrite lookup_insert_ne by exact Hne. exact H.
    + apply elem_of_cons in Hin as [Heq|Hin].
      * inversion Heq; subst k' src'. left.
        destruct Hc as [q ->]. rewrite lookup_insert_eq. eauto.
      * right. eauto.
Qed.

(** Absence of [k] for an initialised [lang] survives every later write. *)
Lemma query_absent_step (lang k : string) (st st' : @Pool Parser Query) :
  pool_step st st' ->
  is_Some (parsers st !! lang) /\ query_absent lang k st ->
  is_Some (parsers st' !! lang) /\ query_absent lang k st'.
Proof.
  assert (Hinit : forall lang' s,
    is_Some (parsers s !! lang) /\ query_absent lang k s ->
    is_Some (parsers (snd (init lang' s)) !! lang)
    /\ query_absent lang k (snd (init lang' s))).
  { intros lang' s [Hp Hq]. unfold _initialize_parser.
    destruct (parsers s !! lang') as [p'|] eqn:Hl'; [now split|].
    destruct (LANG_CONFIG !! lang') as [cfg|]; [|now split].
    destruct (language cfg) as [l|]; [|now split].
    destruct (new_parser l) as [p|]; [|now split].
    assert (Hne : lang' <> lang).
    { intros ->. rewrite Hl' in Hp. destruct Hp as [? Hp]. discriminate Hp. }
    simpl. unfold query_absent. simpl.
    rewrite !lookup_insert_ne by exact Hne. now split. }
  intros Hstep H. destruct Hstep as [lang' s|bs lang' s].
  - apply Hinit, H.
  - unfold parse_code. destruct (parsers s !! lang') as [p'|]; [exact H|].
    specialize (Hinit lang' s H).
    destruct (init lang' s) as [[p|] s']; exact Hinit.
Qed.

Lemma query_absent_later (lang k : string) (st st' : @Pool Parser Query) :
  rtc pool_step st st' ->
  is_Some (parsers st !! lang) /\ query_absent lang k st ->
  is_Some (parsers st' !! lang) /\ query_absent lang k st'.
Proof.
  induction 1 as [|s1 s2 s3 Hstep _ IH]; [tauto|].
  intros H. apply IH. eapply query_absent_step; eauto.
Qed.

Lemma run_query_absent (lang k : string) (node : option Node)
    (st : @Pool Parser Query) :
  query_absent lang k st -> run_query captures k lang node st = [].
Proof.
  unfold query_absent, run_query. intros ->. reflexivity.
Qed.

(** C7. Let [lang] be initialised for the first time, its parser being
    constructible, while every source registered under the query name
    [k] fails to compile.  Then initialisation still succeeds and returns
    the parser; each query that did compile is in the compiled set; and
    in every later state of the pool [k] is absent from the compiled set
    of [lang] and [run_query k lang] returns the empty list on every
    node. *)
Theorem failed_query_is_absent_and_yields_nothing
    (lang k : string) (cfg : LanguageConfig Language) (l : Language)
    (p : Parser) (st : @Pool Parser Query) :
  parsers st !! lang = None ->
  LANG_CONFIG !! lang = Some cfg ->
  language cfg = Some l ->
  new_parser l = Some p ->
  (forall src, (k, src) ∈ queries cfg -> compile_query l src = None) ->
  fst (init lang st) = Some p
  /\ (forall k' src, (k', src) ∈ queries cfg -> is_Some (compile_query l src) ->
        is_Some (default ∅ (_queries_compiled (snd (init lang st)) !! lang) !! k'))
  /\ (forall st', rtc pool_step (snd (init lang st)) st' ->
        query_absent lang k st'
        /\ forall node, run_query captures k lang node st' = []).
Proof.
  intros Hfresh Hcfg Hl Hp Hfail.
  unfold _initialize_parser. rewrite Hfresh, Hcfg, Hl, Hp. simpl.
  split; [reflexivity|]. split.
  - intros k' src Hin Hc. rewrite lookup_insert_eq. simpl.
    apply compile_queries_fold_present. right. eauto.
  - intros st' Hlater.
    assert (H0 : is_Some (parsers (mkPool (<[lang:=p]> (parsers st))
                   (<[lang:=compile_queries compile_query l (queries cfg)]>
                      (_queries_compiled st))) !! lang)
                 /\ query_absent lang k (mkPool (<[lang:=p]> (parsers st))
                   (<[lang:=compile_queries compile_query l (queries cfg)]>
                      (_queries_compiled st)))).
    { split.
      - simpl. rewrite lookup_insert_eq. eauto.
      - unfold query_absent. simpl. rewrite lookup_insert_eq. simpl.
        apply compile_queries_absent, Hfail. }
    destruct (query_absent_later lang k _ _ Hlater H0) as [_ Habs].
    split; [exact Habs|]. intros node. apply run_query_absent, Habs.
Qed.

End ParserPool.

(** With ["broken"] failing to compile, initialising Python on the empty
    pool still returns the parser, and running ["broken"] yields nothing
    although a compiled query would capture the node. *)
Lemma failed_query_is_absent_and_yields_nothing_witness :
  fst (_initialize_parser flaky_LANG_CONFIG demo_new_parser flaky_compile_query
         "python" empty_pool) = Some demo_grammar
  /\ run_query demo_captures "broken" "python" (Some cls_module)
       (snd (_initialize_parser flaky_LANG_CONFIG demo_new_parser
               flaky_compile_query "python" empty_pool)) = []
  /\ run_query demo_captures "classes" "python" (Some cls_module)
       (snd (_initialize_parser flaky_LANG_CONFIG demo_new_parser
               flaky_compile_query "python" empty_pool))
     = [(cls_module, "(class_definition) @c")].
Proof.
  destruct (failed_query_is_absent_and_yields_nothing
              flaky_LANG_CONFIG demo_new_parser flaky_compile_query
              demo_ts_parse demo_captures "python" "broken"
              (mkLanguageConfig (Some demo_grammar) flaky_queries python_node_types)
              demo_grammar demo_grammar empty_pool)
    as (Hret & _ & Hlater).
  - reflexivity.
  - reflexivity.
  - reflexivity.
  - reflexivity.
  - intros src Hin. unfold flaky_queries in Hin.
    repeat (apply elem_of_cons in Hin as [Hin|Hin]; [inversion Hin; subst|]);
      try discriminate; try reflexivity.
    inversion Hin.
  - split; [exact Hret|]. split.
    + apply (Hlater _ (rtc_refl _ _)).
    + reflexivity.
Defined.

(* ================================================================= *)
(** ** Signatures *)

(** A parameter node of type [typed_default_parameter] matches no arm of
    the dispatch, keeps the placeholder name, and is therefore filtered
    out of the signature. *)
Lemma typed_default_parameter_unnamed
    (decode : bytes -> string) (child : Node) (content_bytes : bytes) :
  node_type child = "typed_default_parameter" ->
  param_name (param_info_of decode child content_bytes) = "_unknown_".
Proof.
  intros H. unfold param_info_of. rewrite H. reflexivity.
Qed.

(** On the shape the [default_parameter] arm reads (a [default_parameter]
    carrying a [type] field) the four entries come out, in source order,
    and the default of [b] is the text ["5"]. *)
Lemma signature_on_anticipated_shape :
  sig_params (extract_py_signature ascii_decode sig_func_anticipated
                (list_byte_of_string sig_src))
  = [ mkParamInfo "a" "unknown" None;
      mkParamInfo "b" "T" (Some "5");
      mkParamInfo "*args" "tuple" None;
      mkParamInfo "**kwargs" "dict" None ].
Proof. vm_compute. reflexivity. Qed.

(** C1. On the tree of [def f(a, b: T = 5, *args, **kwargs)] the
    extractor returns three entries, not four: [b: T = 5] is a
    [typed_default_parameter] node, for which the dispatch has no arm, so
    the entry for [b] and its default text ["5"] are missing. *)
Theorem signature_loses_typed_default :
  sig_params (extract_py_signature ascii_decode sig_func_grammar
                (list_byte_of_string sig_src))
  = [ mkParamInfo "a" "unknown" None;
      mkParamInfo "*args" "tuple" None;
      mkParamInfo "**kwargs" "dict" None ].
Proof. vm_compute. reflexivity. Qed.

(* ================================================================= *)
(** ** Docstrings *)

(** When the first statement of the body is not an expression statement
    holding a string, there is no docstring (and no error: the function is
    total). *)
Lemma python_docstring_absent {Language : Type}
    (decode : bytes -> string) (cfg : gmap string (LanguageConfig Language))
    (body first : Node) (rest : list Node) (content_bytes : bytes) :
  named_children body = first :: rest ->
  (is_node_type cfg (Some first) "python" "expression_statement" = false
   \/ match named_children first with
      | s :: _ => is_node_type cfg (Some s) "python" "string" = false
      | [] => True
      end) ->
  get_docstring_from_python_node decode cfg (Some body) content_bytes = None.
Proof.
  intros Hnc H. unfold get_docstring_from_python_node.
  destruct (negb (is_node_type cfg (Some body) "python" "block")); [reflexivity|].
  rewrite Hnc. destruct (named_children first) as [|s ss]; [reflexivity|].
  destruct H as [-> | ->]; [reflexivity|].
  rewrite andb_false_r. reflexivity.
Qed.

Lemma python_docstring_absent_example :
  get_docstring_from_python_node ascii_decode (demo_LANG_CONFIG demo_grammar)
    (Some doc_body_pass) (list_byte_of_string doc_src) = None.
Proof.
  apply (python_docstring_absent _ _ _
           (tree "pass_statement" 13 17 [tok "pass" 13 17]) []).
  - reflexivity.
  - left. reflexivity.
Qed.

(** On the shape described in the extractor's comment (delimiter tokens
    whose type is their text, around a [string_content]) the block
    string is dedented and trimmed. *)
Lemma python_docstring_on_anticipated_shape :
  get_docstring_from_python_node ascii_decode (demo_LANG_CONFIG demo_grammar)
    (Some doc_body_anticipated) (list_byte_of_string doc_src)
  = Some ("line one" +:+ nl +:+ "line two").
Proof. vm_compute. reflexivity. Qed.

(** C4. On the trees tree-sitter-python yields for the indented block
    string, the extractor does not return ["line one\nline two"]: with
    [string_start]/[string_content]/[string_end] children the delimiters
    are not among the skipped token types, so the result keeps both triple
    quotes and the indentation; with the older aliased delimiters there is
    no content child and the result is [None]. *)
Theorem python_docstring_keeps_delimiters :
  get_docstring_from_python_node ascii_decode (demo_LANG_CONFIG demo_grammar)
    (Some doc_body_grammar) (list_byte_of_string doc_src)
  = Some (dq +:+ dq +:+ dq +:+ nl +:+ "    line one" +:+ nl +:+
          "    line two" +:+ nl +:+ "    " +:+ dq +:+ dq +:+ dq)
  /\ get_docstring_from_python_node ascii_decode (demo_LANG_CONFIG demo_grammar)
       (Some doc_body_grammar_old) (list_byte_of_string doc_src)
     = None.
Proof. split; vm_compute; reflexivity. Qed.

Section RustDocstrings.

Variable decode : bytes -> string.





End RustDocstrings.



(* ================================================================= *)
(** ** Qualified names through the pipeline *)

(** C3, as first stated: with the module at [pkg/sub/mod] and target
    [pkg], the method [Foo] of the top-level class [Outer] would be named
    [pkg.sub.mod.Outer.Foo].  It is not, whether the path is taken relative
    to the root of [pkg] or with [pkg] as its first segment. *)
Lemma fqn_of_nested_in_mod_not_as_stated :
  ~ (method_fqns (cls_run ["sub"; "mod.py"]) = ["pkg.sub.mod.Outer.Foo"]
     \/ method_fqns (cls_run ["pkg"; "sub"; "mod.py"]) = ["pkg.sub.mod.Outer.Foo"]).
Proof.
  intros [H|H]; vm_compute in H; discriminate H.
Qed.

(** C3, amended.  The file stem [mod] is one of the module-root names
    ([__init__], [mod], [lib]) that the component id drops, and the
    component id seeds the parent FQN: for [sub/mod.py] under target [pkg]
    the component is [pkg.sub], the class is [pkg.sub.Outer] and its method
    is [pkg.sub.Outer.Foo].  For a stem outside that list, as in
    [sub/util.py], the method is [pkg.sub.util.Outer.Foo]. *)
Theorem fqn_of_nested_in_mod :
  map component_id (cls_run ["sub"; "mod.py"]) = ["pkg.sub"]
  /\ method_fqns (cls_run ["sub"; "mod.py"]) = ["pkg.sub.Outer.Foo"]
  /\ map component_id (cls_run ["sub"; "util.py"]) = ["pkg.sub.util"]
  /\ method_fqns (cls_run ["sub"; "util.py"]) = ["pkg.sub.util.Outer.Foo"].
Proof. repeat split; vm_compute; reflexivity. Qed.

(* ================================================================= *)
(** ** Routing of top-level functions *)

Lemma str_contains_unfold (s sub : string) :
  str_contains s sub
  = str_startswith s sub
    || match s with
       | EmptyString => false
       | String _ s' => str_contains s' sub
       end.
Proof. destruct s; reflexivity. Qed.

Lemma str_contains_spec (s sub : string) :
  str_contains s sub = true <-> exists a b, s = a +:+ sub +:+ b.
Proof.
  split.
  - induction s as [|c s IH]; rewrite str_contains_unfold; intros H;
      apply orb_true_iff in H as [H|H].
    + apply str_startswith_spec in H as [t Ht]. exists "", t. exact Ht.
    + discriminate H.
    + apply str_startswith_spec in H as [t Ht]. exists "", t. exact Ht.
    + destruct (IH H) as (a & b & ->). exists (String c a), b. reflexivity.
  - intros (a & b & ->). induction a as [|c a IH].
    + rewrite str_contains_unfold.
      change ("" +:+ sub +:+ b) with (sub +:+ b).
      now rewrite str_startswith_app.
    + change (String c a +:+ sub +:+ b) with (String c (a +:+ sub +:+ b)).
      rewrite str_contains_unfold, IH. apply orb_true_r.
Qed.

Lemma str_in_pair (x a b : string) :
  str_in x [a; b] = true <-> x = a \/ x = b.
Proof.
  unfold str_in. simpl.
  rewrite orb_false_r, orb_true_iff, !String.eqb_eq. reflexivity.
Qed.

Lemma is_test_file_spec (parts : list string) (name : string) :
  is_test_file parts name = true
  <-> ((exists a b, str_lower name = a +:+ "test" +:+ b)
       \/ exists p, p ∈ parts /\ (str_lower p = "test" \/ str_lower p = "tests")).
Proof.
  unfold is_test_file. rewrite orb_true_iff, str_contains_spec, existsb_exists.
  apply or_iff_compat_l. split.
  - intros (p & Hin & Hp). exists p. split; [now apply list_elem_of_In|].
    now apply str_in_pair.
  - intros (p & Hin & Hp). exists p. split; [now apply list_elem_of_In|].
    now apply str_in_pair.
Qed.

Section Routing.

Context {Language : Type}.
Variable decode : bytes -> string.
Variable LANG_CONFIG : gmap string (LanguageConfig Language).
Variable LANG_MAP : list (string * string).

Local Abbreviation route := (route_top_level decode LANG_CONFIG LANG_MAP).
Local Abbreviation is_a := (is_node_type LANG_CONFIG).

(** C10, amended.  Take a top-level node that is not a class definition.
    If it is a function definition (a node of the [func_def] type, which is
    what the parser gives for an undecorated [def]) whose name text [name]
    is non-empty, it is routed to exactly one list: it yields one test
    specification, and no function record, if and only if the file is a
    test file (the lower-cased file name contains ["test"], or some part of
    the file's path is ["test"] or ["tests"] once lower-cased) or the name
    starts with ["test_"]; otherwise it yields one function record and no
    test specification.  A node of any other type (a [decorated_definition]
    among them, under which a decorated function sits) yields nothing, and
    so does a function definition whose name text cannot be read. *)
Theorem function_routed_to_exactly_one_list
    (node : Node) (root rel : list string) (content_bytes : bytes)
    (target name : string) :
  is_a (Some node) "python" "class_def" = false ->
  let file_name := default "" (last (root ++ rel)) in
  let r := route node "python" rel content_bytes target
             (is_test_file (root ++ rel) file_name) in
  let name_text :=
    get_node_text decode (find_child_by_field_name (Some node) "name")
      content_bytes in
  let as_test :=
    ((exists a b, str_lower file_name = a +:+ "test" +:+ b)
     \/ exists p, p ∈ root ++ rel /\ (str_lower p = "test" \/ str_lower p = "tests"))
    \/ (exists t, name = "test_" +:+ t) in
  (is_a (Some node) "python" "func_def" = true ->
   name_text = Some name ->
   name <> "" ->
   new_structs r = []
   /\ length (new_funcs r) + length (new_tests r) = 1
   /\ (as_test <->
       new_funcs r = [] /\ exists spec, new_tests r = [spec] /\ ts_scenario spec = name)
   /\ (~ as_test <->
       new_tests r = [] /\ exists fr, new_funcs r = [fr] /\ fn_name fr = name))
  /\ (is_a (Some node) "python" "func_def" = false -> r = mkNewRecords [] [] [])
  /\ (is_a (Some node) "python" "func_def" = true ->
      opt_truthy name_text = false -> r = mkNewRecords [] [] []).
Proof.
  intros Hcls file_name r name_text as_test. split; [|split].
  - intros Hfun Hname Hne. subst name_text.
    assert (Htruthy : str_truthy name = true) by (now apply str_truthy_true).
    assert (Hdec : as_test <->
              is_test_file (root ++ rel) file_name || str_startswith name "test_" = true).
    { unfold as_test. rewrite orb_true_iff, is_test_file_spec, str_startswith_spec.
      reflexivity. }
    subst r. unfold route_top_level. rewrite Hcls, Hfun, Hname.
    unfold opt_or. rewrite Htruthy.
    destruct (is_test_file (root ++ rel) file_name || str_startswith name "test_")
      eqn:Hroute.
    + unfold extract_py_test_specifications. rewrite Hname, Htruthy. simpl.
      split; [reflexivity|]. split; [reflexivity|]. split; split.
      * intros _. split; [reflexivity|]. eexists. split; reflexivity.
      * intros _. apply Hdec. reflexivity.
      * intros H. exfalso. apply H, Hdec. reflexivity.
      * intros [H _]. discriminate H.
    + unfold extract_py_function_details. rewrite Hname, Htruthy. simpl.
      split; [reflexivity|]. split; [reflexivity|]. split; split.
      * intros H. apply Hdec in H. discriminate H.
      * intros [_ (spec & H & _)]. discriminate H.
      * intros _. split; [reflexivity|]. eexists. split; reflexivity.
      * intros _ H. apply Hdec in H. discriminate H.
  - intros Hfun. subst r. unfold route_top_level. now rewrite Hcls, Hfun.
  - intros Hfun Hno. subst r name_text. unfold route_top_level.
    rewrite Hcls, Hfun.
    unfold extract_py_test_specifications, extract_py_function_details.
    destruct (get_node_text decode (find_child_by_field_name (Some node) "name")
                content_bytes) as [n|]; cbn [opt_truthy] in Hno.
    + rewrite Hno. cbn [negb].
      now destruct (_ || _).
    + now destruct (_ || _).
Qed.

End Routing.

(** C10, as first stated: every top-level function declaration lands in
    exactly one of the two lists.  For [@dec def foo(): pass] the top-level
    node is a [decorated_definition]; the function below it has the
    readable name [foo], yet the file's component ends with no function
    and no test specification, in a plain file and in a test file. *)
Lemma decorated_function_routed_nowhere :
  map node_type (children decorated_module) = ["decorated_definition"]
  /\ get_node_text ascii_decode
       (find_child_by_field_name
          (find_child_by_field_name (Some decorated_def) "definition") "name")
       (list_byte_of_string decorated_src) = Some "foo"
  /\ map (fun kc => (fst kc, length (functions (snd kc)),
                     length (test_specifications (snd kc))))
         (components (world_after_decorated ["m.py"]))
     = [("pkg.m", 0, 0)]
  /\ map (fun kc => (fst kc, length (functions (snd kc)),
                     length (test_specifications (snd kc))))
         (components (world_after_decorated ["test_m.py"]))
     = [("pkg.test_m", 0, 0)].
Proof. repeat split; vm_compute; reflexivity. Qed.

(** [foo] of [foobar_src]: a function record in [m.py], a test
    specification in [tests/m.py]. *)
Lemma function_routed_to_exactly_one_list_witness :
  (exists fr,
      new_funcs (route_top_level ascii_decode (demo_LANG_CONFIG demo_grammar)
                   demo_LANG_MAP (simple_def 0 0) "python" ["m.py"]
                   (list_byte_of_string foobar_src) "pkg"
                   (is_test_file (["/"; "srv"; "pkg"] ++ ["m.py"]) "m.py")) = [fr]
      /\ fn_name fr = "foo")
  /\ (exists spec,
      new_tests (route_top_level ascii_decode (demo_LANG_CONFIG demo_grammar)
                   demo_LANG_MAP (simple_def 0 0) "python" ["tests"; "m.py"]
                   (list_byte_of_string foobar_src) "pkg"
                   (is_test_file (["/"; "srv"; "pkg"] ++ ["tests"; "m.py"]) "m.py"))
        = [spec]
      /\ ts_scenario spec = "foo").
Proof.
  split.
  - destruct (function_routed_to_exactly_one_list ascii_decode
                (demo_LANG_CONFIG demo_grammar) demo_LANG_MAP (simple_def 0 0)
                ["/"; "srv"; "pkg"] ["m.py"] (list_byte_of_string foobar_src)
                "pkg" "foo") as (Hdef & _); [reflexivity|].
    destruct Hdef as (_ & _ & _ & Hfun).
    + reflexivity.
    + reflexivity.
    + discriminate.
    + apply Hfun. intros [Hfile|(t & H)].
      * apply is_test_file_spec in Hfile. vm_compute in Hfile. discriminate Hfile.
      * discriminate H.
  - destruct (function_routed_to_exactly_one_list ascii_decode
                (demo_LANG_CONFIG demo_grammar) demo_LANG_MAP (simple_def 0 0)
                ["/"; "srv"; "pkg"] ["tests"; "m.py"] (list_byte_of_string foobar_src)
                "pkg" "foo") as (Hdef & _); [reflexivity|].
    destruct Hdef as (_ & _ & Htest & _).
    + reflexivity.
    + reflexivity.
    + discriminate.
    + apply Htest. left. right. exists "tests". split.
      * apply list_elem_of_In. simpl. tauto.
      * right. reflexivity.
Defined.

(* ================================================================= *)
(** ** The aggregator *)

Lemma dict_update_keys {V : Type} (k : string) (f : V -> V) (d : list (string * V)) :
  map fst (dict_update k f d) = map fst d.
Proof.
  unfold dict_update. rewrite map_map. apply map_ext.
  intros [k' v]. simpl. now destruct (String.eqb k k').
Qed.

Lemma dict_mem_keys {V : Type} (k : string) (d : list (string * V)) :
  dict_mem k d = str_in k (map fst d).
Proof.
  unfold dict_mem, str_in. induction d as [|kv d IH]; simpl; [reflexivity|].
  now rewrite IH.
Qed.

Lemma assoc_get_update {V : Type} (k : string) (f : V -> V) (d : list (string * V)) :
  assoc_get k (dict_update k f d) = option_map f (assoc_get k d).
Proof.
  induction d as [|[k' v] d IH]; simpl; [reflexivity|].
  destruct (String.eqb k k') eqn:E; simpl; rewrite E; [reflexivity | exact IH].
Qed.

Lemma assoc_get_mem {V : Type} (k : string) (d : list (string * V)) :
  dict_mem k d = true <-> is_Some (assoc_get k d).
Proof.
  induction d as [|[k' v] d IH]; simpl.
  - split; [discriminate | intros [? H]; discriminate H].
  - destruct (String.eqb k k'); simpl; [|exact IH].
    split; eauto.
Qed.

Lemma assoc_get_snoc {V : Type} (k : string) (v : V) (d : list (string * V)) :
  assoc_get k d = None -> assoc_get k (d ++ [(k, v)]) = Some v.
Proof.
  induction d as [|[k' v'] d IH]; simpl; intros H.
  - now rewrite String.eqb_refl.
  - destruct (String.eqb k k'); [discriminate H | exact (IH H)].
Qed.

Lemma extend_component_nil (c : Component) :
  extend_component (mkNewRecords [] [] []) c = c.
Proof.
  destruct c. unfold extend_component. simpl. now rewrite !app_nil_r.
Qed.

Lemma extend_component_add (r1 r2 : NewRecords) (c : Component) :
  extend_component r2 (extend_component r1 c)
  = extend_component (add_records r1 r2) c.
Proof.
  unfold extend_component, add_records. simpl. now rewrite !app_assoc.
Qed.

Lemma filter_everything {A : Type} (P : A -> Prop) `{forall x, Decision (P x)}
    (l : list A) :
  (forall x, P x) -> filter P l = l.
Proof.
  intros HP. induction l as [|x l IH]; [reflexivity|].
  rewrite filter_cons_True by apply HP. now rewrite IH.
Qed.

Section Aggregation.

Context {Language Parser Query : Type}.
Variable decode : bytes -> string.
Variable LANG_CONFIG : gmap string (LanguageConfig Language).
Variable new_parser : Language -> option Parser.
Variable compile_query : Language -> string -> option Query.
Variable ts_parse : Parser -> bytes -> Node.
Variable LANG_MAP : list (string * string).

Local Abbreviation init := (_initialize_parser LANG_CONFIG new_parser compile_query).
Local Abbreviation parse := (parse_code LANG_CONFIG new_parser compile_query ts_parse).
Local Abbreviation parser_for := (parser_of LANG_CONFIG new_parser compile_query).
Local Abbreviation step :=
  (process_file decode LANG_CONFIG new_parser compile_query ts_parse LANG_MAP).
Local Abbreviation run_target :=
  (process_target decode LANG_CONFIG new_parser compile_query ts_parse LANG_MAP).
Local Abbreviation agg_id :=
  (aggregated_id LANG_CONFIG new_parser compile_query LANG_MAP).
Local Abbreviation cid_of := (find_component_id_for_lib LANG_MAP).
Local Abbreviation id_trace :=
  (id_trace LANG_CONFIG new_parser compile_query LANG_MAP).
Local Abbreviation records := (top_level_records decode LANG_CONFIG LANG_MAP).
Local Abbreviation route := (route_top_level decode LANG_CONFIG LANG_MAP).
Local Abbreviation world := (@World Parser Query).

Lemma parse_code_fst (bs : bytes) (lang : string) (p : Pool) :
  fst (parse bs lang p) = option_map (fun q => ts_parse q bs) (parser_for lang p).
Proof.
  unfold parse_code, parser_of, _initialize_parser.
  destruct (parsers p !! lang); [reflexivity|].
  destruct (LANG_CONFIG !! lang) as [cfg|]; [|reflexivity].
  destruct (language cfg) as [l|]; [|reflexivity].
  destruct (new_parser l); reflexivity.
Qed.

Lemma parse_code_snd (bs : bytes) (lang : string) (p : Pool) :
  snd (parse bs lang p) = snd (init lang p).
Proof.
  unfold parse_code, _initialize_parser.
  destruct (parsers p !! lang); [reflexivity|].
  destruct (LANG_CONFIG !! lang) as [cfg|]; [|reflexivity].
  destruct (language cfg) as [l|]; [|reflexivity].
  destruct (new_parser l); reflexivity.
Qed.

(** Which parser serves a language does not depend on what has been
    initialised in between. *)
Lemma parser_of_init (lang lang' : string) (p : Pool) :
  parser_for lang (snd (init lang' p)) = parser_for lang p.
Proof.
  unfold parser_of, _initialize_parser.
  destruct (parsers p !! lang') as [q'|] eqn:Hq'; [reflexivity|].
  destruct (LANG_CONFIG !! lang') as [cfg'|] eqn:Hcfg'; [|reflexivity].
  destruct (language cfg') as [l'|] eqn:Hl'; [|reflexivity].
  destruct (new_parser l') as [q|] eqn:Hnew; [|reflexivity].
  simpl. destruct (decide (lang = lang')) as [->|Hne].
  - rewrite lookup_insert_eq, Hq', Hcfg', Hl', Hnew. reflexivity.
  - rewrite lookup_insert_ne by congruence.
    destruct (parsers p !! lang); [reflexivity|].
    destruct (LANG_CONFIG !! lang) as [cfg|]; [|reflexivity].
    destruct (language cfg) as [l|]; [|reflexivity].
    destruct (new_parser l); reflexivity.
Qed.

Lemma process_file_pool (f : SourceFile) (root : list string) (t : string) (w : world) :
  pool (step f root t w) = pool w
  \/ exists lang, pool (step f root t w) = snd (init lang (pool w)).
Proof.
  unfold process_file.
  destruct (file_language LANG_MAP (rel_parts f) root) as [lang|]; [|now left].
  destruct (content f) as [bs|]; [|now left].
  right. exists lang. rewrite <- (parse_code_snd bs).
  destruct (parse bs lang (pool w)) as [[root_node|] p']; reflexivity.
Qed.

Lemma aggregated_id_stable (f g : SourceFile) (root root' : list string)
    (t t' : string) (w : world) :
  agg_id g root' t' (pool (step f root t w)) = agg_id g root' t' (pool w).
Proof.
  unfold aggregated_id.
  destruct (process_file_pool f root t w) as [->|[lang ->]]; [reflexivity|].
  destruct (file_language LANG_MAP (rel_parts g) root'); [|reflexivity].
  now rewrite parser_of_init.
Qed.

Lemma process_file_keys (f : SourceFile) (root : list string) (t : string) (w : world) :
  map fst (components (step f root t w))
  = add_key (map fst (components w)) (agg_id f root t (pool w)).
Proof.
  unfold process_file, aggregated_id.
  destruct (file_language LANG_MAP (rel_parts f) root) as [lang|]; [|reflexivity].
  destruct (content f) as [bs|]; [|reflexivity].
  pose proof (parse_code_fst bs lang (pool w)) as Hfst.
  destruct (parse bs lang (pool w)) as [[root_node|] p']; simpl in Hfst;
    destruct (parser_for lang (pool w)); try discriminate Hfst; simpl;
    [|reflexivity].
  rewrite dict_update_keys, dict_mem_keys. unfold str_in.
  destruct (existsb _ (map fst (components w))); [reflexivity|].
  rewrite map_app. reflexivity.
Qed.

Lemma process_file_keyed (f : SourceFile) (root : list string) (t : string) (w : world) :
  keyed component_id (components w) ->
  keyed component_id (components (step f root t w)).
Proof.
  intros Hk. unfold process_file.
  destruct (file_language LANG_MAP (rel_parts f) root) as [lang|]; [|exact Hk].
  destruct (content f) as [bs|]; [|exact Hk].
  destruct (parse bs lang (pool w)) as [[root_node|] p']; [|exact Hk].
  simpl. unfold dict_update, keyed. rewrite Forall_map.
  assert (Hall : keyed component_id
            (if dict_mem (cid_of (path_str (rel_parts f)) t) (components w)
             then components w
             else components w
                  ++ [(cid_of (path_str (rel_parts f)) t,
                       fresh_component (cid_of (path_str (rel_parts f)) t) lang)])).
  { destruct (dict_mem _ (components w)); [exact Hk|].
    apply Forall_app. split; [exact Hk|]. now repeat constructor. }
  eapply Forall_impl; [exact Hall|].
  intros [k c] Hkc. simpl in *. now destruct (String.eqb _ k).
Qed.

Lemma keyed_ids (d : list (string * Component)) :
  keyed component_id d -> map component_id (map snd d) = map fst d.
Proof.
  induction 1 as [|[k c] d Hkc _ IH]; simpl; [reflexivity|].
  simpl in Hkc. now rewrite Hkc, IH.
Qed.

Lemma str_in_elem_of (x : string) (l : list string) :
  existsb (String.eqb x) l = true <-> x ∈ l.
Proof.
  rewrite existsb_exists. split.
  - intros (y & Hin & Heq). apply String.eqb_eq in Heq. subst y.
    now apply list_elem_of_In.
  - intros Hin. exists x. split; [now apply list_elem_of_In | apply String.eqb_refl].
Qed.

(** Insertion into a dictionary lists each key once, where it first came. *)
Lemma fold_add_key (opts : list (option string)) (ks : list string) :
  fold_left add_key opts ks
  = ks ++ filter (fun y => y ∉ ks) (first_seen (omap id opts)).
Proof.
  revert ks. induction opts as [|[x|] opts IH]; intros ks; simpl.
  - now rewrite app_nil_r.
  - rewrite IH. clear IH.
    change (omap id (Some x :: opts)) with (x :: omap id opts). simpl.
    destruct (existsb (String.eqb x) ks) eqn:Hin.
    + apply str_in_elem_of in Hin.
      rewrite filter_cons_False by (intros H; now apply H).
      rewrite list_filter_filter. f_equal. apply list_filter_iff.
      intros y. split; [|tauto]. intros Hy. split; [exact Hy|].
      intros ->. now apply Hy.
    + assert (Hnin : x ∉ ks).
      { intros H. apply str_in_elem_of in H. rewrite H in Hin. discriminate Hin. }
      rewrite filter_cons_True by exact Hnin.
      rewrite list_filter_filter, <- app_assoc. simpl. do 2 f_equal.
      apply list_filter_iff. intros y. rewrite not_elem_of_app, not_elem_of_cons.
      split; [intros [H1 [H2 _]]; tauto | intros [H1 H2]; repeat split; auto].
      apply not_elem_of_nil.
  - apply IH.
Qed.

Lemma run_files_stable (g : SourceFile) (root root' : list string) (t t' : string)
    (files : list SourceFile) (w : world) :
  agg_id g root' t' (pool (fold_left (fun w f => step f root t w) files w))
  = agg_id g root' t' (pool w).
Proof.
  revert w. induction files as [|f files IH]; intros w; simpl; [reflexivity|].
  rewrite IH. apply aggregated_id_stable.
Qed.

Lemma run_files_keys (root : list string) (t : string)
    (files : list SourceFile) (w : world) :
  map fst (components (fold_left (fun w f => step f root t w) files w))
  = fold_left add_key (map (fun f => agg_id f root t (pool w)) files)
      (map fst (components w)).
Proof.
  revert w. induction files as [|f files IH]; intros w; simpl; [reflexivity|].
  rewrite IH, process_file_keys. f_equal.
  apply map_ext. intros g. apply aggregated_id_stable.
Qed.

Lemma run_files_keyed (root : list string) (t : string)
    (files : list SourceFile) (w : world) :
  keyed component_id (components w) ->
  keyed component_id (components (fold_left (fun w f => step f root t w) files w)).
Proof.
  revert w. induction files as [|f files IH]; intros w Hk; simpl; [exact Hk|].
  apply IH, process_file_keyed, Hk.
Qed.

Lemma run_targets_stable (g : SourceFile) (root' : list string) (t' : string)
    (targets : list (list string * string * list SourceFile)) (w : world) :
  agg_id g root' t' (pool (fold_left run_target targets w))
  = agg_id g root' t' (pool w).
Proof.
  revert w. induction targets as [|[[root t] files] targets IH]; intros w; simpl;
    [reflexivity|].
  rewrite IH. apply run_files_stable.
Qed.

Lemma run_targets_keys
    (targets : list (list string * string * list SourceFile)) (w : world) :
  map fst (components (fold_left run_target targets w))
  = fold_left add_key (id_trace (pool w) targets) (map fst (components w)).
Proof.
  revert w. induction targets as [|[[root t] files] targets IH]; intros w; simpl;
    [reflexivity|].
  rewrite IH, fold_left_app, run_files_keys. f_equal.
  unfold id_trace. apply flat_map_ext. intros [[root' t'] files'].
  apply map_ext. intros g. apply run_files_stable.
Qed.

Lemma run_targets_keyed
    (targets : list (list string * string * list SourceFile)) (w : world) :
  keyed component_id (components w) ->
  keyed component_id (components (fold_left run_target targets w)).
Proof.
  revert w. induction targets as [|[[root t] files] targets IH]; intros w Hk; simpl;
    [exact Hk|].
  apply IH, run_files_keyed, Hk.
Qed.

(** C2, amended.  Started on an empty component store, the pipeline emits
    the components in the order in which their ids were first inserted:
    one component per id, placed where the first file aggregated under that
    id was processed.  No sorting takes place. *)
Theorem components_in_insertion_order
    (targets : list (list string * string * list SourceFile)) (w0 : world) :
  components w0 = [] ->
  map component_id
      (main_components decode LANG_CONFIG new_parser compile_query ts_parse
         LANG_MAP w0 targets)
  = first_seen (omap id (id_trace (pool w0) targets)).
Proof.
  intros Hempty. unfold main_components, final_components.
  rewrite keyed_ids.
  - rewrite run_targets_keys, fold_add_key, Hempty. simpl.
    apply filter_everything. intros y. apply not_elem_of_nil.
  - apply run_targets_keyed. rewrite Hempty. constructor.
Qed.

Lemma map_lookup {A B : Type} (f : A -> B) (l : list A) (i : nat) :
  map f l !! i = option_map f (l !! i).
Proof.
  revert i. induction l as [|x l IH]; intros [|i]; simpl; try reflexivity.
  apply IH.
Qed.

Lemma records_fold (lang : string) (rel : list string) (bs : bytes) (t : string)
    (tf : bool) (nodes : list Node) (acc : NewRecords) :
  fold_left (fun acc node => add_records acc (route node lang rel bs t tf)) nodes acc
  = mkNewRecords
      (new_structs acc ++ flat_map (fun n => new_structs (route n lang rel bs t tf)) nodes)
      (new_funcs acc ++ flat_map (fun n => new_funcs (route n lang rel bs t tf)) nodes)
      (new_tests acc ++ flat_map (fun n => new_tests (route n lang rel bs t tf)) nodes).
Proof.
  revert acc. induction nodes as [|n nodes IH]; intros acc; simpl.
  - destruct acc. simpl. now rewrite !app_nil_r.
  - rewrite IH. unfold add_records. simpl. now rewrite !app_assoc.
Qed.

(** The records of a file are those of its top-level nodes, in source order. *)
Lemma top_level_records_in_source_order (root_node : Node) (lang : string)
    (rel : list string) (bs : bytes) (t : string) (tf : bool) :
  records root_node lang rel bs t tf
  = mkNewRecords
      (flat_map (fun n => new_structs (route n lang rel bs t tf)) (children root_node))
      (flat_map (fun n => new_funcs (route n lang rel bs t tf)) (children root_node))
      (flat_map (fun n => new_tests (route n lang rel bs t tf)) (children root_node)).
Proof. unfold top_level_records. now rewrite records_fold. Qed.

(** What one call stores under the file's component id. *)
Lemma process_file_upserts (f : SourceFile) (root : list string) (t : string)
    (w : world) (lang : string) (bs : bytes) (root_node : Node) :
  file_language LANG_MAP (rel_parts f) root = Some lang ->
  content f = Some bs ->
  fst (parse bs lang (pool w)) = Some root_node ->
  let cid := cid_of (path_str (rel_parts f)) t in
  let r := records root_node lang (rel_parts f) bs t
             (is_test_file (root ++ rel_parts f)
                (default "" (last (root ++ rel_parts f)))) in
  assoc_get cid (components (step f root t w))
  = Some (extend_component r
            (default (fresh_component cid lang) (assoc_get cid (components w))))
  /\ map fst (components (step f root t w))
     = if dict_mem cid (components w) then map fst (components w)
       else map fst (components w) ++ [cid].
Proof.
  intros Hlang Hcontent Hparse cid r. unfold process_file.
  rewrite Hlang, Hcontent.
  destruct (parse bs lang (pool w)) as [[rn|] p']; simpl in Hparse;
    [|discriminate Hparse].
  injection Hparse as ->. simpl. fold cid. fold r.
  rewrite assoc_get_update, dict_update_keys. split.
  - destruct (dict_mem cid (components w)) eqn:Hmem.
    + apply assoc_get_mem in Hmem as [c Hc]. now rewrite Hc.
    + assert (Hnone : assoc_get cid (components w) = None).
      { destruct (assoc_get cid (components w)) eqn:Hc; [|reflexivity].
        assert (Hs : is_Some (assoc_get cid (components w))) by (rewrite Hc; eauto).
        apply assoc_get_mem in Hs. rewrite Hs in Hmem. discriminate Hmem. }
      rewrite (assoc_get_snoc _ _ _ Hnone), Hnone. reflexivity.
  - destruct (dict_mem cid (components w)); [reflexivity|].
    rewrite map_app. reflexivity.
Qed.

(** A stored component keeps its place and only grows at the end of its
    three lists. *)
Lemma process_file_extends (f : SourceFile) (root : list string) (t : string)
    (w : world) (i : nat) (k : string) (c : Component) :
  components w !! i = Some (k, c) ->
  exists r, components (step f root t w) !! i = Some (k, extend_component r c).
Proof.
  intros Hi.
  assert (Hsame : exists r, components w !! i = Some (k, extend_component r c)).
  { exists (mkNewRecords [] [] []). now rewrite extend_component_nil. }
  unfold process_file.
  destruct (file_language LANG_MAP (rel_parts f) root) as [lang|]; [|exact Hsame].
  destruct (content f) as [bs|]; [|exact Hsame].
  destruct (parse bs lang (pool w)) as [[root_node|] p']; [|exact Hsame].
  simpl. unfold dict_update. rewrite map_lookup.
  set (cid := cid_of (path_str (rel_parts f)) t).
  set (r := records _ _ _ _ _ _).
  assert (Hi' : (if dict_mem cid (components w) then components w
                 else components w ++ [(cid, fresh_component cid lang)]) !! i
                = Some (k, c)).
  { destruct (dict_mem cid (components w)); [exact Hi|].
    now apply lookup_app_l_Some. }
  rewrite Hi'. simpl. destruct (String.eqb cid k).
  - exists r. reflexivity.
  - exists (mkNewRecords [] [] []). now rewrite extend_component_nil.
Qed.

Lemma run_files_extend (root : list string) (t : string)
    (files : list SourceFile) (w : world) (i : nat) (k : string) (c : Component) :
  components w !! i = Some (k, c) ->
  exists r, components (fold_left (fun w f => step f root t w) files w) !! i
            = Some (k, extend_component r c).
Proof.
  revert w c. induction files as [|f files IH]; intros w c Hi; simpl.
  - exists (mkNewRecords [] [] []). now rewrite extend_component_nil.
  - destruct (process_file_extends f root t w i k c Hi) as [r1 H1].
    destruct (IH _ _ H1) as [r2 H2].
    exists (add_records r1 r2). now rewrite <- extend_component_add.
Qed.

Lemma run_targets_extend
    (targets : list (list string * string * list SourceFile))
    (w : world) (i : nat) (k : string) (c : Component) :
  components w !! i = Some (k, c) ->
  exists r, components (fold_left run_target targets w) !! i
            = Some (k, extend_component r c).
Proof.
  revert w c. induction targets as [|[[root t] files] targets IH]; intros w c Hi; simpl.
  - exists (mkNewRecords [] [] []). now rewrite extend_component_nil.
  - destruct (run_files_extend root t files w i k c Hi) as [r1 H1].
    destruct (IH _ _ H1) as [r2 H2].
    exists (add_records r1 r2). now rewrite <- extend_component_add.
Qed.

(** C6. Let [process_file] reach aggregation for a file with tree
    [root_node], and let [cid] be the file's component id.  Afterwards a
    component is stored under [cid]; each of its three lists is the list
    stored under [cid] before (empty on the first record for [cid], when the
    component is created, under that id and placed last) followed by what
    the file's top-level nodes contribute, node by node in source order.
    Every component stored before keeps its place and its id, and each of
    its three lists as a prefix of the new one, after this call and after
    any later run: nothing is overwritten, merged or dropped. *)
Theorem aggregation_is_append_only
    (f : SourceFile) (root : list string) (t : string) (w : world)
    (lang : string) (bs : bytes) (root_node : Node) :
  file_language LANG_MAP (rel_parts f) root = Some lang ->
  content f = Some bs ->
  fst (parse bs lang (pool w)) = Some root_node ->
  let cid := cid_of (path_str (rel_parts f)) t in
  let tf := is_test_file (root ++ rel_parts f)
              (default "" (last (root ++ rel_parts f))) in
  let old := assoc_get cid (components w) in
  let w' := step f root t w in
  (exists c',
      assoc_get cid (components w') = Some c'
      /\ (old = None -> component_id c' = cid)
      /\ data_structures c'
         = from_option data_structures [] old
           ++ flat_map (fun n => new_structs (route n lang (rel_parts f) bs t tf))
                       (children root_node)
      /\ functions c'
         = from_option functions [] old
           ++ flat_map (fun n => new_funcs (route n lang (rel_parts f) bs t tf))
                       (children root_node)
      /\ test_specifications c'
         = from_option test_specifications [] old
           ++ flat_map (fun n => new_tests (route n lang (rel_parts f) bs t tf))
                       (children root_node))
  /\ map fst (components w')
     = (if dict_mem cid (components w) then map fst (components w)
        else map fst (components w) ++ [cid])
  /\ (forall i k c, components w !! i = Some (k, c) ->
        exists c', components w' !! i = Some (k, c')
          /\ component_id c' = component_id c
          /\ data_structures c `prefix_of` data_structures c'
          /\ functions c `prefix_of` functions c'
          /\ test_specifications c `prefix_of` test_specifications c')
  /\ (forall targets i k c, components w' !! i = Some (k, c) ->
        exists c', components (fold_left run_target targets w') !! i = Some (k, c')
          /\ component_id c' = component_id c
          /\ data_structures c `prefix_of` data_structures c'
          /\ functions c `prefix_of` functions c'
          /\ test_specifications c `prefix_of` test_specifications c').
Proof.
  intros Hlang Hcontent Hparse cid tf old w'.
  destruct (process_file_upserts f root t w lang bs root_node Hlang Hcontent Hparse)
    as [Hget Hkeys].
  rewrite top_level_records_in_source_order in Hget.
  split; [|split; [exact Hkeys|split]].
  - eexists. split; [exact Hget|]. subst old. fold cid.
    destruct (assoc_get cid (components w)) as [c|]; simpl.
    + repeat split; try reflexivity. discriminate.
    + repeat split; reflexivity.
  - intros i k c Hi.
    destruct (process_file_extends f root t w i k c Hi) as [r' Hr].
    exists (extend_component r' c). split; [exact Hr|].
    split; [reflexivity|]. repeat split; eexists; reflexivity.
  - intros targets i k c Hi.
    destruct (run_targets_extend targets w' i k c Hi) as [r' Hr].
    exists (extend_component r' c). split; [exact Hr|].
    split; [reflexivity|]. repeat split; eexists; reflexivity.
Qed.

End Aggregation.

(** [foo] and [bar] from [m.py], then [baz] from [m/__init__.py]: one
    component [pkg.m] whose function list is [foo, bar, baz]. *)
Lemma aggregation_is_append_only_witness :
  option_map (fun c => map fn_name (functions c))
             (assoc_get "pkg.m" (components world_after_m))
  = Some ["foo"; "bar"]
  /\ option_map (fun c => map fn_name (functions c))
                (assoc_get "pkg.m" (components world_after_m_init))
     = Some ["foo"; "bar"; "baz"]
  /\ map fst (components world_after_m_init) = ["pkg.m"].
Proof.
  split; [vm_compute; reflexivity|].
  destruct (aggregation_is_append_only ascii_decode (demo_LANG_CONFIG demo_grammar)
              demo_new_parser demo_compile_query demo_ts_parse demo_LANG_MAP
              (file_of ["m"; "__init__.py"] baz_src) demo_root "pkg" world_after_m
              "python" (list_byte_of_string baz_src) baz_module)
    as ((c' & Hget & _ & _ & Hfun & _) & Hkeys & _).
  - reflexivity.
  - reflexivity.
  - vm_compute. reflexivity.
  - change (find_component_id_for_lib demo_LANG_MAP
              (path_str (rel_parts (file_of ["m"; "__init__.py"] baz_src))) "pkg")
      with "pkg.m" in Hget, Hfun, Hkeys.
    split.
    + unfold world_after_m_init, demo_process_file. rewrite Hget.
      cbn [option_map]. rewrite Hfun. vm_compute. reflexivity.
    + unfold world_after_m_init, demo_process_file. rewrite Hkeys.
      vm_compute. reflexivity.
Defined.

(** C2, as first stated: the emitted components are sorted by id.  With
    [b.py] listed before [a.py] the output is [pkg.b], [pkg.a]. *)
Lemma components_not_sorted :
  map component_id unsorted_run = ["pkg.b"; "pkg.a"]
  /\ ids_sorted (map component_id unsorted_run) = false.
Proof. split; vm_compute; reflexivity. Qed.

Lemma components_in_insertion_order_witness :
  components empty_world = []
  /\ map component_id unsorted_run = first_seen ["pkg.b"; "pkg.a"].
Proof.
  split; [reflexivity|].
  unfold unsorted_run, demo_main_components.
  rewrite components_in_insertion_order by reflexivity.
  vm_compute. reflexivity.
Defined.

(* ================================================================= *)
(** ** More on the parser pool *)

Section PoolCache.

Context {Language Parser Query : Type}.
Variable LANG_CONFIG : gmap string (LanguageConfig Language).
Variable new_parser : Language -> option Parser.
Variable compile_query : Language -> string -> option Query.
Variable ts_parse : Parser -> bytes -> Node.

Local Abbreviation init := (_initialize_parser LANG_CONFIG new_parser compile_query).
Local Abbreviation parse := (parse_code LANG_CONFIG new_parser compile_query ts_parse).
Local Abbreviation pool_step :=
  (pool_step LANG_CONFIG new_parser compile_query ts_parse).

(** X1. Initialisation is idempotent: a second call for the same language
    returns what the first returned and leaves the pool as the first left
    it (a parser is built at most once; a failure is simply retried). *)
Theorem initialize_parser_idempotent (lang : string) (st : @Pool Parser Query) :
  init lang (snd (init lang st)) = init lang st.
Proof.
  unfold _initialize_parser.
  destruct (parsers st !! lang) as [p|] eqn:Hp; simpl.
  - now rewrite Hp.
  - destruct (LANG_CONFIG !! lang) as [cfg|] eqn:Hcfg; simpl;
      [|now rewrite ?Hp].
    destruct (language cfg) as [l|] eqn:Hl; simpl; [|now rewrite ?Hp, ?Hl].
    destruct (new_parser l) as [p|] eqn:Hnew; simpl;
      [|now rewrite ?Hp, ?Hl, ?Hnew].
    now rewrite lookup_insert_eq.
Qed.

Lemma pool_step_keeps_entry (lang : string) (st st' : @Pool Parser Query) :
  pool_step st st' ->
  is_Some (parsers st !! lang) ->
  parsers st' !! lang = parsers st !! lang
  /\ _queries_compiled st' !! lang = _queries_compiled st !! lang.
Proof.
  assert (Hinit : forall lang' s, is_Some (parsers s !! lang) ->
    parsers (snd (init lang' s)) !! lang = parsers s !! lang
    /\ _queries_compiled (snd (init lang' s)) !! lang = _queries_compiled s !! lang).
  { intros lang' s Hs. unfold _initialize_parser.
    destruct (parsers s !! lang') as [p'|] eqn:Hl'; [now split|].
    destruct (LANG_CONFIG !! lang') as [cfg|]; [|now split].
    destruct (language cfg) as [l|]; [|now split].
    destruct (new_parser l) as [p|]; [|now split].
    assert (Hne : lang' <> lang).
    { intros ->. rewrite Hl' in Hs. destruct Hs as [? Hs]. discriminate Hs. }
    simpl. rewrite !lookup_insert_ne by exact Hne. now split. }
  intros Hstep Hs. destruct Hstep as [lang' s|bs lang' s].
  - now apply Hinit.
  - unfold parse_code. destruct (parsers s !! lang') as [p'|]; [now split|].
    specialize (Hinit lang' s Hs).
    destruct (init lang' s) as [[p|] s']; exact Hinit.
Qed.

(** X2. The cache is stable: once a language has a parser, no later
    initialisation or parse (of any language) replaces that parser or
    touches its compiled query set. *)
Theorem pool_cache_is_stable (lang : string) (p : Parser)
    (st st' : @Pool Parser Query) :
  parsers st !! lang = Some p ->
  rtc pool_step st st' ->
  parsers st' !! lang = Some p
  /\ _queries_compiled st' !! lang = _queries_compiled st !! lang.
Proof.
  intros Hp Hsteps. revert Hp.
  induction Hsteps as [s|s1 s2 s3 Hstep _ IH]; intros Hp; [now split|].
  destruct (pool_step_keeps_entry lang s1 s2 Hstep) as [Hp2 Hq2];
    [rewrite Hp; eauto|].
  rewrite Hp in Hp2. destruct (IH Hp2) as [Hp3 Hq3].
  split; [exact Hp3 | now rewrite Hq3].
Qed.

Lemma compile_queries_fold_other (l : Language) (k : string)
    (qs : list (string * string)) (acc : gmap string Query) :
  k ∉ map fst qs ->
  fold_left
    (fun acc '(query_name, query_string) =>
       match compile_query l query_string with
       | Some q => <[query_name := q]> acc
       | None => acc
       end) qs acc !! k = acc !! k.
Proof.
  revert acc. induction qs as [|[k' src'] qs IH]; intros acc Hk; simpl; [reflexivity|].
  simpl in Hk. apply not_elem_of_cons in Hk as [Hne Hk].
  rewrite IH by exact Hk.
  destruct (compile_query l src'); [|reflexivity].
  now rewrite lookup_insert_ne by congruence.
Qed.

Lemma compile_queries_fold_lookup (l : Language) (k : string)
    (qs : list (string * string)) (acc : gmap string Query) :
  NoDup (map fst qs) ->
  fold_left
    (fun acc '(query_name, query_string) =>
       match compile_query l query_string with
       | Some q => <[query_name := q]> acc
       | None => acc
       end) qs acc !! k
  = match assoc_get k qs with
    | Some src =>
        match compile_query l src with Some q => Some q | None => acc !! k end
    | None => acc !! k
    end.
Proof.
  revert acc. induction qs as [|[k' src'] qs IH]; intros acc Hnd; simpl;
    [reflexivity|].
  simpl in Hnd. apply NoDup_cons in Hnd as [Hk' Hnd].
  destruct (String.eqb k k') eqn:E.
  - apply String.eqb_eq in E. subst k'.
    rewrite compile_queries_fold_other by exact Hk'.
    destruct (compile_query l src'); [now rewrite lookup_insert_eq | reflexivity].
  - apply String.eqb_neq in E. rewrite IH by exact Hnd.
    destruct (assoc_get k qs) as [src|].
    + destruct (compile_query l src); [reflexivity|].
      destruct (compile_query l src'); [|reflexivity].
      now rewrite lookup_insert_ne by congruence.
    + destruct (compile_query l src'); [|reflexivity].
      now rewrite lookup_insert_ne by congruence.
Qed.

(** X3. The compiled set holds, under each registered query name, exactly
    the compilation of that name's source: a name whose source compiles
    maps to the compiled query, a name whose source does not compile (or
    that is not registered) is absent. *)
Theorem compiled_set_is_compilation_of_registry (l : Language)
    (qs : list (string * string)) (k : string) :
  NoDup (map fst qs) ->
  compile_queries compile_query l qs !! k
  = match assoc_get k qs with
    | Some src => compile_query l src
    | None => None
    end.
Proof.
  intros Hnd. unfold compile_queries.
  rewrite compile_queries_fold_lookup by exact Hnd.
  rewrite lookup_empty.
  destruct (assoc_get k qs) as [src|]; [|reflexivity].
  now destruct (compile_query l src).
Qed.

(** X4. [parse_code] yields no tree exactly when no parser can be had for
    the language, and then leaves the pool untouched; when it yields a
    tree the language's parser is cached from then on. *)
Theorem parse_code_failure_and_caching (bs : bytes) (lang : string)
    (st : @Pool Parser Query) :
  (fst (parse bs lang st) = None <->
     parsers st !! lang = None
     /\ (forall cfg l, LANG_CONFIG !! lang = Some cfg -> language cfg = Some l ->
           new_parser l = None))
  /\ (fst (parse bs lang st) = None -> snd (parse bs lang st) = st)
  /\ (is_Some (fst (parse bs lang st)) ->
        is_Some (parsers (snd (parse bs lang st)) !! lang)).
Proof.
  unfold parse_code, _initialize_parser.
  destruct (parsers st !! lang) as [p|] eqn:Hp; simpl.
  { split; [split|split].
    - discriminate.
    - intros [Hn _]. discriminate Hn.
    - discriminate.
    - intros _. rewrite Hp. eauto. }
  destruct (LANG_CONFIG !! lang) as [cfg|]; simpl.
  2: { split; [split|split].
       - intros _. split; [reflexivity|]. intros cfg l Hc. discriminate Hc.
       - reflexivity.
       - reflexivity.
       - intros [x Hx]. discriminate Hx. }
  destruct (language cfg) as [l|] eqn:Hlang; simpl.
  2: { split; [split|split].
       - intros _. split; [reflexivity|]. intros cfg' l Hc Hl.
         injection Hc as <-. congruence.
       - reflexivity.
       - reflexivity.
       - intros [x Hx]. discriminate Hx. }
  destruct (new_parser l) as [p|] eqn:Hnew; simpl.
  - split; [split|split].
    + discriminate.
    + intros [_ Hall]. specialize (Hall cfg l eq_refl Hlang). congruence.
    + discriminate.
    + intros _. rewrite lookup_insert_eq. eauto.
  - split; [split|split].
    + intros _. split; [reflexivity|]. intros cfg' l' Hc Hl.
      injection Hc as <-. congruence.
    + reflexivity.
    + reflexivity.
    + intros [x Hx]. discriminate Hx.
Qed.

End PoolCache.

(* ================================================================= *)
(** ** Splitting, joining and stripping *)

Lemma str_app_cons (a : ascii) (s t : string) :
  String a s +:+ t = String a (s +:+ t).
Proof. reflexivity. Qed.

Lemma str_app_nil_l (s : string) : "" +:+ s = s.
Proof. reflexivity. Qed.

Lemma str_app_nil_r (s : string) : s +:+ "" = s.
Proof.
  induction s as [|a s IH]; [reflexivity|]. now rewrite str_app_cons, IH.
Qed.

Lemma str_app_assoc (a b c : string) : (a +:+ b) +:+ c = a +:+ b +:+ c.
Proof.
  induction a as [|x a IH]; [reflexivity|]. now rewrite !str_app_cons, IH.
Qed.

Lemma str_free_app (c : ascii) (s t : string) :
  str_free c (s +:+ t) = str_free c s && str_free c t.
Proof.
  unfold str_free. induction s as [|a s IH]; [reflexivity|].
  rewrite str_app_cons. simpl. now rewrite IH, andb_assoc.
Qed.

Lemma str_split_free (c : ascii) (x : string) :
  str_free c x = true -> str_split c x = [x].
Proof.
  unfold str_free. induction x as [|a x IH]; simpl; intros H; [reflexivity|].
  apply andb_true_iff in H as [Ha Hx]. apply negb_true_iff in Ha.
  rewrite Ha, (IH Hx). reflexivity.
Qed.

Lemma str_split_app_sep (c : ascii) (x y : string) :
  str_free c x = true ->
  str_split c (x +:+ String c y) = x :: str_split c y.
Proof.
  unfold str_free. induction x as [|a x IH]; intros H.
  - rewrite str_app_nil_l. simpl. now rewrite Ascii.eqb_refl.
  - simpl in H. apply andb_true_iff in H as [Ha Hx]. apply negb_true_iff in Ha.
    rewrite str_app_cons. simpl. rewrite Ha, (IH Hx). reflexivity.
Qed.

Lemma str_join_cons (sep x : string) (l : list string) :
  l <> [] -> str_join sep (x :: l) = x +:+ sep +:+ str_join sep l.
Proof. destruct l; [contradiction | reflexivity]. Qed.

(** [s.split(c)] undoes [c.join(parts)] when no part contains [c]. *)
Lemma str_split_join (c : ascii) (parts : list string) :
  parts <> [] ->
  Forall (fun p => str_free c p = true) parts ->
  str_split c (str_join (String c "") parts) = parts.
Proof.
  intros Hne Hall. induction Hall as [|x l Hx Hl IH]; [contradiction|].
  destruct l as [|y l].
  - simpl. now apply str_split_free.
  - rewrite str_join_cons by discriminate.
    change (String c "" +:+ str_join (String c "") (y :: l))
      with (String c (str_join (String c "") (y :: l))).
    rewrite str_split_app_sep by exact Hx.
    rewrite IH by discriminate. reflexivity.
Qed.

Lemma str_split_nonempty (c : ascii) (s : string) : str_split c s <> [].
Proof.
  induction s as [|a s IH]; simpl; [discriminate|].
  destruct (Ascii.eqb a c); [discriminate|].
  destruct (str_split c s); [contradiction | discriminate].
Qed.

Lemma str_join_head_char (sep : string) (a : ascii) (w : string) (ws : list string) :
  str_join sep (String a w :: ws) = String a (str_join sep (w :: ws)).
Proof. destruct ws; reflexivity. Qed.

(** [c.join(s.split(c)) == s] *)
Lemma str_join_split (c : ascii) (s : string) :
  str_join (String c "") (str_split c s) = s.
Proof.
  induction s as [|a s IH]; [reflexivity|]. simpl.
  pose proof (str_split_nonempty c s) as Hne.
  destruct (Ascii.eqb a c) eqn:E.
  - apply Ascii.eqb_eq in E. subst a.
    rewrite str_join_cons by exact Hne. rewrite IH. reflexivity.
  - destruct (str_split c s) as [|w ws]; [contradiction|].
    rewrite str_join_head_char. now rewrite IH.
Qed.

Lemma filter_Forall_id {A : Type} (P : A -> Prop) `{forall x, Decision (P x)}
    (l : list A) :
  Forall P l -> filter P l = l.
Proof.
  induction 1 as [|x l Hx _ IH]; [reflexivity|].
  rewrite filter_cons_True by exact Hx. now rewrite IH.
Qed.

Lemma str_lstrip_no_lead (p : ascii -> bool) (s : string) :
  no_lead p (str_lstrip_with p s).
Proof.
  induction s as [|a s IH]; simpl; [exact I|].
  destruct (p a) eqn:E; [exact IH | exact E].
Qed.

Lemma str_lstrip_id (p : ascii -> bool) (s : string) :
  no_lead p s -> str_lstrip_with p s = s.
Proof. destruct s as [|a s]; simpl; [reflexivity | now intros ->]. Qed.

Lemma str_rstrip_no_lead (p : ascii -> bool) (s : string) :
  no_lead p s -> no_lead p (str_rstrip_with p s).
Proof.
  destruct s as [|a s]; simpl; [exact id|]. intros Ha.
  destruct (str_rstrip_with p s); simpl; [now rewrite Ha | exact Ha].
Qed.

Lemma str_rstrip_cons (p : ascii -> bool) (a : ascii) (s : string) :
  str_rstrip_with p (String a s)
  = match str_rstrip_with p s with
    | EmptyString => if p a then "" else String a ""
    | r => String a r
    end.
Proof. reflexivity. Qed.

Lemma str_rstrip_idem (p : ascii -> bool) (s : string) :
  str_rstrip_with p (str_rstrip_with p s) = str_rstrip_with p s.
Proof.
  induction s as [|a s IH]; [reflexivity|].
  rewrite (str_rstrip_cons p a s).
  destruct (str_rstrip_with p s) as [|b r] eqn:E.
  - destruct (p a) eqn:Ha; [reflexivity|].
    rewrite str_rstrip_cons. simpl. now rewrite Ha.
  - rewrite str_rstrip_cons, IH. reflexivity.
Qed.

Lemma str_strip_idem (s : string) : str_strip (str_strip s) = str_strip s.
Proof.
  unfold str_strip.
  rewrite (str_lstrip_id chr_isspace (str_rstrip_with chr_isspace _)).
  - apply str_rstrip_idem.
  - apply str_rstrip_no_lead, str_lstrip_no_lead.
Qed.

(* ================================================================= *)
(** ** Paths and component ids *)

Lemma str_join_starts (sep x : string) (l : list string) :
  exists t, str_join sep (x :: l) = x +:+ t.
Proof.
  destruct l as [|y l].
  - exists "". simpl. now rewrite str_app_nil_r.
  - exists (sep +:+ str_join sep (y :: l)). reflexivity.
Qed.

Lemma str_startswith_cons (a b : ascii) (s p : string) :
  str_startswith (String b s) (String a p) = Ascii.eqb a b && str_startswith s p.
Proof. reflexivity. Qed.

Lemma part_clean_head (p : string) :
  part_clean p -> exists a p', p = String a p' /\ Ascii.eqb "/" a = false.
Proof.
  intros (Hne & _ & Hfree). destruct p as [|a p]; [contradiction|].
  unfold str_free in Hfree. simpl in Hfree.
  apply andb_true_iff in Hfree as [Ha _]. apply negb_true_iff in Ha.
  exists a, p. split; [reflexivity|]. now rewrite Ascii.eqb_sym.
Qed.

Lemma part_clean_not_rooted (p t : string) :
  part_clean p ->
  str_startswith (p +:+ t) "/" = false /\ str_startswith (p +:+ t) "//" = false.
Proof.
  intros Hp. destruct (part_clean_head p Hp) as (a & p' & -> & Ha).
  rewrite str_app_cons, !str_startswith_cons, Ha. now split.
Qed.

Lemma path_parts_round_trip (parts : list string) :
  Forall part_clean parts -> path_parts (path_str parts) = parts.
Proof.
  intros Hall. destruct parts as [|x l]; [reflexivity|].
  unfold path_parts, path_str.
  assert (Hx : part_clean x) by (now inversion Hall).
  destruct (str_join_starts os_sep x l) as [t Ht].
  destruct (part_clean_not_rooted x t Hx) as [Hroot Hroot2].
  rewrite <- Ht in Hroot, Hroot2.
  rewrite Hroot, Hroot2, andb_false_l. cbv iota. rewrite app_nil_l.
  change os_sep with (String "/"%char "").
  rewrite str_split_join.
  - apply filter_Forall_id. eapply Forall_impl; [exact Hall|].
    intros p (Hne & Hdot & _). simpl.
    apply str_truthy_true in Hne. rewrite Hne. simpl.
    apply String.eqb_neq in Hdot. now rewrite Hdot.
  - discriminate.
  - eapply Forall_impl; [exact Hall|]. now intros p (_ & _ & Hfree).
Qed.

(** X5. [Path(str(p)).parts == p.parts] on relative paths: re-parsing the
    printed form of a path gives back its components, so what
    [find_component_id_for_lib] sees is what [process_file] had. *)
Theorem path_parts_of_path_str (parts : list string) :
  Forall part_clean parts -> path_parts (path_str parts) = parts.
Proof. apply path_parts_round_trip. Qed.

Lemma path_parts_of_path_str_witness :
  Forall part_clean ["sub"; "mod.py"]
  /\ path_parts (path_str ["sub"; "mod.py"]) = ["sub"; "mod.py"].
Proof.
  assert (H : Forall part_clean ["sub"; "mod.py"]).
  { repeat constructor; discriminate. }
  split; [exact H|]. exact (path_parts_of_path_str _ H).
Defined.

Lemma str_rfind_free (c : ascii) (t : string) :
  str_free c t = true -> str_rfind c t = None.
Proof.
  unfold str_free. induction t as [|a t IH]; simpl; intros H; [reflexivity|].
  apply andb_true_iff in H as [Ha Ht]. apply negb_true_iff in Ha.
  now rewrite (IH Ht), Ha.
Qed.

Lemma str_rfind_last (c : ascii) (s t : string) :
  str_free c t = true ->
  str_rfind c (s +:+ String c t) = Some (String.length s).
Proof.
  intros Ht. induction s as [|a s IH].
  - rewrite str_app_nil_l. simpl.
    now rewrite (str_rfind_free c t Ht), Ascii.eqb_refl.
  - rewrite str_app_cons. simpl. now rewrite IH.
Qed.

Lemma str_take_app (s t : string) : str_take (String.length s) (s +:+ t) = s.
Proof.
  induction s as [|a s IH]; [now destruct t|].
  rewrite str_app_cons. simpl. now rewrite IH.
Qed.

Lemma path_stem_py (stem : string) :
  stem <> "" -> path_stem (stem +:+ ".py") = stem.
Proof.
  intros Hne. unfold path_stem.
  change (stem +:+ ".py") with (stem +:+ String "."%char "py").
  rewrite str_rfind_last by reflexivity.
  rewrite str_length_app. simpl.
  assert (Hlen : 0 < String.length stem).
  { destruct stem; [contradiction | simpl; lia]. }
  destruct (Nat.ltb_spec 0 (String.length stem)) as [_|]; [|lia].
  destruct (Nat.ltb_spec (String.length stem) (String.length stem + 3 - 1))
    as [_|]; [|lia].
  simpl. apply str_take_app.
Qed.

Section ComponentIds.

Variable LANG_MAP : list (string * string).

Local Abbreviation cid_of := (find_component_id_for_lib LANG_MAP).

(** The parts left after suffix stripping and module-root collapsing, for
    a file [stem.py] in the directories [dirs]. *)
Lemma component_id_of_py_file (dirs : list string) (stem library_name : string) :
  Forall part_clean dirs ->
  stem <> "" ->
  str_free "/" stem = true ->
  In ".py" (map fst LANG_MAP) ->
  cid_of (path_str (dirs ++ [stem +:+ ".py"])) library_name
  = let parts :=
      if str_in stem module_root_names
      then if Nat.ltb 1 (length (dirs ++ [stem])) then dirs
           else if negb (String.eqb stem library_name) then dirs
           else dirs ++ [stem]
      else dirs ++ [stem] in
    match parts with
    | [] => library_name
    | _ => library_name +:+ "." +:+ str_join "." parts
    end.
Proof.
  intros Hdirs Hne Hfree Hpy. unfold find_component_id_for_lib.
  rewrite path_parts_round_trip.
  2: { apply Forall_app. split; [exact Hdirs|]. repeat constructor.
       - destruct stem; [contradiction | discriminate].
       - destruct stem as [|a [|b s]]; discriminate.
       - rewrite str_free_app, Hfree. reflexivity. }
  rewrite last_snoc.
  assert (Hsuffix : str_endswith_any (stem +:+ ".py") (map fst LANG_MAP ++ [".pyi"])
                    = true).
  { unfold str_endswith_any. apply existsb_exists. exists ".py". split.
    - apply in_or_app. now left.
    - apply str_endswith_spec. now exists stem. }
  rewrite Hsuffix, (path_stem_py stem Hne).
  unfold list_pop. rewrite removelast_last.
  destruct (str_in stem module_root_names); [|reflexivity].
  destruct (Nat.ltb 1 (length (dirs ++ [stem]))); [now rewrite removelast_last|].
  destruct (negb (String.eqb stem library_name)); [now rewrite removelast_last|].
  reflexivity.
Qed.

(** X7. An ordinary module: for [dirs/stem.py] whose stem is not a
    module-root name, the component id is the target name followed by the
    directories and the stem, joined by dots. *)
Theorem component_id_of_module (dirs : list string) (stem library_name : string) :
  Forall part_clean dirs ->
  stem <> "" ->
  str_free "/" stem = true ->
  In ".py" (map fst LANG_MAP) ->
  str_in stem module_root_names = false ->
  cid_of (path_str (dirs ++ [stem +:+ ".py"])) library_name
  = library_name +:+ "." +:+ str_join "." (dirs ++ [stem]).
Proof.
  intros Hdirs Hne Hfree Hpy Hroot.
  rewrite component_id_of_py_file by assumption. cbv zeta. rewrite Hroot.
  destruct dirs; reflexivity.
Qed.

(** X8. Module-root collapsing: [__init__.py], [mod.py] and [lib.py] in a
    directory below the root all get the id of the directory itself, so
    they share one component; at the root they get the target name. *)
Theorem component_id_of_module_root (dirs : list string) (stem library_name : string) :
  Forall part_clean dirs ->
  In ".py" (map fst LANG_MAP) ->
  stem = "__init__" \/ stem = "mod" \/ stem = "lib" ->
  stem <> library_name ->
  cid_of (path_str (dirs ++ [stem +:+ ".py"])) library_name
  = match dirs with
    | [] => library_name
    | _ => library_name +:+ "." +:+ str_join "." dirs
    end.
Proof.
  intros Hdirs Hpy Hstem Hlib.
  assert (Hroot : str_in stem module_root_names = true).
  { destruct Hstem as [->|[->| ->]]; reflexivity. }
  assert (Hne : stem <> "").
  { destruct Hstem as [->|[->| ->]]; discriminate. }
  assert (Hfree : str_free "/" stem = true).
  { destruct Hstem as [->|[->| ->]]; reflexivity. }
  rewrite component_id_of_py_file by assumption. cbv zeta. rewrite Hroot.
  apply String.eqb_neq in Hlib. rewrite Hlib. simpl.
  rewrite length_app. simpl.
  destruct dirs as [|d ds]; [reflexivity|].
  simpl. replace (length ds + 1) with (S (length ds)) by lia. reflexivity.
Qed.

Lemma str_app_inj_l (s t t' : string) : s +:+ t = s +:+ t' -> t = t'.
Proof.
  induction s as [|a s IH]; [now rewrite !str_app_nil_l|].
  rewrite !str_app_cons. intros [= H]. now apply IH.
Qed.

Lemma segment_part_clean (p : string) : segment_clean p -> part_clean p.
Proof.
  intros (Hne & Hsep & Hdot). split; [exact Hne|]. split; [|exact Hsep].
  intros ->. discriminate Hdot.
Qed.

Lemma component_id_of_plain_module (dirs : list string) (stem library_name : string) :
  Forall segment_clean (dirs ++ [stem]) ->
  In ".py" (map fst LANG_MAP) ->
  str_in stem module_root_names = false ->
  cid_of (path_str (dirs ++ [stem +:+ ".py"])) library_name
  = library_name +:+ "." +:+ str_join "." (dirs ++ [stem]).
Proof.
  intros Hall Hpy Hroot. apply Forall_app in Hall as [Hdirs Hstem].
  apply Forall_inv in Hstem. destruct Hstem as (Hne & Hsep & _).
  rewrite component_id_of_py_file; try assumption.
  - cbv zeta. rewrite Hroot. destruct dirs; reflexivity.
  - eapply Forall_impl; [exact Hdirs|]. apply segment_part_clean.
Qed.

(** X6. Which Python files share a component.  Among modules whose
    directory names and stem are free of dots and separators and whose stem
    is not a module-root name, the id determines the path: two of them get
    the same id only if they are the same [dirs/stem].  The one collision
    is with the package of the same name: [dirs/stem/__init__.py] gets the
    id of [dirs/stem.py]. *)
Theorem component_id_collisions
    (dirs1 dirs2 : list string) (stem1 stem2 library_name : string) :
  Forall segment_clean (dirs1 ++ [stem1]) ->
  Forall segment_clean (dirs2 ++ [stem2]) ->
  In ".py" (map fst LANG_MAP) ->
  str_in stem1 module_root_names = false ->
  str_in stem2 module_root_names = false ->
  (find_component_id_for_lib LANG_MAP (path_str (dirs1 ++ [stem1 +:+ ".py"]))
     library_name
   = find_component_id_for_lib LANG_MAP (path_str (dirs2 ++ [stem2 +:+ ".py"]))
       library_name
   <-> dirs1 ++ [stem1] = dirs2 ++ [stem2])
  /\ find_component_id_for_lib LANG_MAP
       (path_str ((dirs1 ++ [stem1]) ++ ["__init__.py"])) library_name
     = find_component_id_for_lib LANG_MAP (path_str (dirs1 ++ [stem1 +:+ ".py"]))
         library_name.
Proof.
  intros H1 H2 Hpy Hr1 Hr2.
  rewrite (component_id_of_plain_module dirs1 stem1) by assumption.
  rewrite (component_id_of_plain_module dirs2 stem2) by assumption.
  split.
  - split.
    + intros H. apply str_app_inj_l in H.
      apply (str_app_inj_l ".") in H.
      apply (f_equal (str_split "."%char)) in H.
      rewrite !str_split_join in H.
      * exact H.
      * now destruct dirs2.
      * eapply Forall_impl; [exact H2|]. now intros p (_ & _ & Hdot).
      * now destruct dirs1.
      * eapply Forall_impl; [exact H1|]. now intros p (_ & _ & Hdot).
    + now intros ->.
  - change ["__init__.py"] with ["__init__" +:+ ".py"].
    rewrite component_id_of_py_file.
    + cbv zeta. change (str_in "__init__" module_root_names) with true.
      cbv iota. rewrite !length_app. cbn [length].
      replace (Nat.ltb 1 (length dirs1 + 1 + 1)) with true
        by (symmetry; apply Nat.ltb_lt; lia).
      now destruct dirs1.
    + eapply Forall_impl; [exact H1|]. apply segment_part_clean.
    + discriminate.
    + reflexivity.
    + exact Hpy.
Qed.

End ComponentIds.

(* ================================================================= *)
(** ** More on the Python FQN builder *)

Lemma build_python_fqn_suffix
    (file_rel_path item_name : string) (parent_fqn : option string) :
  exists prefix, _build_python_fqn file_rel_path item_name parent_fqn
                 = prefix +:+ item_name.
Proof.
  unfold _build_python_fqn.
  set (base := base_module_path_of file_rel_path).
  assert (Hdot : forall p, exists prefix,
             p +:+ "." +:+ item_name = prefix +:+ item_name).
  { intros p. exists (p +:+ "."). now rewrite str_app_assoc. }
  assert (Hnone : exists prefix,
             (if str_truthy base then base +:+ "." +:+ item_name else item_name)
             = prefix +:+ item_name).
  { destruct (str_truthy base); [apply Hdot | now exists ""]. }
  destruct parent_fqn as [parent|]; [|exact Hnone].
  destruct (str_truthy parent); [|exact Hnone].
  destruct (str_truthy base && str_startswith parent base); [|apply Hdot].
  destruct (str_endswith parent item_name) eqn:E; simpl; [|apply Hdot].
  now apply str_endswith_spec.
Qed.

(** X9. Whatever the path and the parent, the built FQN ends with the
    item name. *)
Theorem build_python_fqn_ends_with_item
    (file_rel_path item_name : string) (parent_fqn : option string) :
  exists prefix, _build_python_fqn file_rel_path item_name parent_fqn
                 = prefix +:+ item_name.
Proof. apply build_python_fqn_suffix. Qed.

Lemma build_python_fqn_parent_cases (file_rel_path item_name parent : string) :
  parent <> "" ->
  _build_python_fqn file_rel_path item_name (Some parent) = parent
  \/ _build_python_fqn file_rel_path item_name (Some parent)
     = parent +:+ "." +:+ item_name.
Proof.
  intros Hne. apply str_truthy_true in Hne.
  unfold _build_python_fqn. rewrite Hne.
  destruct (str_truthy _ && str_startswith parent _); [|now right].
  destruct (negb (str_endswith parent item_name)); [now right | now left].
Qed.

(** X10. With a non-empty parent FQN the result stays below the parent:
    it is the parent followed by [.item_name], or the parent itself. *)
Theorem build_python_fqn_below_parent (file_rel_path item_name parent : string) :
  parent <> "" ->
  _build_python_fqn file_rel_path item_name (Some parent) = parent
  \/ _build_python_fqn file_rel_path item_name (Some parent)
     = parent +:+ "." +:+ item_name.
Proof. apply build_python_fqn_parent_cases. Qed.

Lemma build_python_fqn_below_parent_witness :
  _build_python_fqn "sub/m.py" "run" (Some "pkg.sub.m.Job") = "pkg.sub.m.Job"
  \/ _build_python_fqn "sub/m.py" "run" (Some "pkg.sub.m.Job")
     = "pkg.sub.m.Job" +:+ "." +:+ "run".
Proof. apply build_python_fqn_below_parent. discriminate. Defined.

Lemma str_startswith_nil (s : string) : str_startswith s "" = true.
Proof. now destruct s. Qed.

Lemma str_replace_char_free (c : ascii) (new x : string) :
  str_free c x = true -> str_replace_from 0 (String c "") new x = x.
Proof.
  unfold str_free. induction x as [|a x IH]; intros H; [reflexivity|].
  simpl in H. apply andb_true_iff in H as [Ha Hx]. apply negb_true_iff in Ha.
  cbn [str_replace_from]. rewrite str_startswith_cons, Ascii.eqb_sym, Ha.
  simpl. now rewrite (IH Hx).
Qed.

Lemma str_replace_char_app (c : ascii) (new x y : string) :
  str_free c x = true ->
  str_replace_from 0 (String c "") new (x +:+ String c y)
  = x +:+ new +:+ str_replace_from 0 (String c "") new y.
Proof.
  unfold str_free. induction x as [|a x IH]; intros H.
  - rewrite !str_app_nil_l. cbn [str_replace_from].
    rewrite str_startswith_cons, Ascii.eqb_refl, str_startswith_nil. reflexivity.
  - simpl in H. apply andb_true_iff in H as [Ha Hx]. apply negb_true_iff in Ha.
    rewrite !str_app_cons. cbn [str_replace_from].
    rewrite str_startswith_cons, Ascii.eqb_sym, Ha. simpl. now rewrite (IH Hx).
Qed.

Lemma str_replace_join (c d : ascii) (parts : list string) :
  parts <> [] ->
  Forall (fun p => str_free c p = true) parts ->
  str_replace (str_join (String c "") parts) (String c "") (String d "")
  = str_join (String d "") parts.
Proof.
  intros Hne Hall. unfold str_replace.
  induction Hall as [|x l Hx Hl IH]; [contradiction|].
  destruct l as [|y l].
  - simpl. now apply str_replace_char_free.
  - rewrite !str_join_cons by discriminate.
    change (String c "" +:+ str_join (String c "") (y :: l))
      with (String c (str_join (String c "") (y :: l))).
    rewrite str_replace_char_app by exact Hx.
    rewrite IH by discriminate. reflexivity.
Qed.

Lemma str_join_snoc (sep x : string) (l : list string) :
  l <> [] -> str_join sep (l ++ [x]) = str_join sep l +:+ sep +:+ x.
Proof.
  induction l as [|y l IH]; [contradiction|]. intros _.
  destruct l as [|z l]; [reflexivity|].
  change ((y :: z :: l) ++ [x]) with (y :: ((z :: l) ++ [x])).
  rewrite str_join_cons by (destruct l; discriminate).
  rewrite IH by discriminate.
  rewrite (str_join_cons sep y (z :: l)) by discriminate.
  now rewrite !str_app_assoc.
Qed.

Lemma str_join_nonempty (sep : string) (l : list string) :
  l <> [] -> Forall (fun p => p <> "") l -> str_join sep l <> "".
Proof.
  intros Hne Hall. destruct Hall as [|x l Hx _]; [contradiction|].
  destruct (str_join_starts sep x l) as [t ->].
  destruct x; [contradiction | discriminate].
Qed.

(** X11. Dot-style names from well-formed paths: for a file [stem.py] in
    directories [dirs] (no segment empty or containing a dot or a
    separator), an item without a parent is named by the directories, the
    stem and the item joined by dots; the stem [__init__] is left out. *)
Theorem build_python_fqn_of_clean_path
    (dirs : list string) (stem item_name : string) :
  Forall segment_clean dirs ->
  segment_clean stem ->
  let segs := if String.eqb stem "__init__" then dirs else dirs ++ [stem] in
  base_module_path_of (path_str (dirs ++ [stem +:+ ".py"])) = str_join "." segs
  /\ _build_python_fqn (path_str (dirs ++ [stem +:+ ".py"])) item_name None
     = str_join "." (segs ++ [item_name]).
Proof.
  intros Hdirs (Hne & Hslash & Hdot) segs.
  assert (Hbase : base_module_path_of (path_str (dirs ++ [stem +:+ ".py"]))
                  = str_join "." segs).
  { unfold base_module_path_of.
    assert (Hstr : path_str (dirs ++ [stem +:+ ".py"])
                   = str_join "/" (dirs ++ [stem +:+ ".py"])).
    { unfold path_str. destruct dirs; reflexivity. }
    rewrite Hstr.
    change os_sep with (String "/"%char "").
    change "." with (String "."%char "") at 1.
    rewrite str_replace_join.
    2: { destruct dirs; discriminate. }
    2: { apply Forall_app. split.
         - eapply Forall_impl; [exact Hdirs|]. now intros p (_ & H & _).
         - repeat constructor. now rewrite str_free_app, Hslash. }
    assert (Hjoin : str_join "." (dirs ++ [stem +:+ ".py"])
                    = str_join "." ((dirs ++ [stem]) ++ ["py"])).
    { rewrite (str_join_snoc "." "py" (dirs ++ [stem])) by (destruct dirs; discriminate).
      destruct dirs as [|d ds]; [reflexivity|].
      rewrite !str_join_snoc by discriminate. now rewrite !str_app_assoc. }
    rewrite Hjoin, str_split_join.
    2: { destruct dirs; discriminate. }
    2: { apply Forall_app. split; [apply Forall_app; split|].
         - eapply Forall_impl; [exact Hdirs|]. now intros p (_ & _ & H).
         - now repeat constructor.
         - now repeat constructor. }
    rewrite last_snoc.
    rewrite (bool_decide_eq_true_2 (Some "py" = Some "py")) by reflexivity.
    unfold list_pop. rewrite removelast_last, last_snoc.
    subst segs. destruct (String.eqb_spec stem "__init__") as [->|Hinit].
    - rewrite bool_decide_eq_true_2 by reflexivity. rewrite removelast_last.
      f_equal. apply filter_Forall_id. eapply Forall_impl; [exact Hdirs|].
      intros p (Hp & _). simpl. apply str_truthy_true in Hp. now rewrite Hp.
    - rewrite bool_decide_eq_false_2 by congruence.
      f_equal. apply filter_Forall_id. apply Forall_app. split.
      + eapply Forall_impl; [exact Hdirs|].
        intros p (Hp & _). simpl. apply str_truthy_true in Hp. now rewrite Hp.
      + repeat constructor. simpl. apply str_truthy_true in Hne. now rewrite Hne. }
  split; [exact Hbase|].
  unfold _build_python_fqn. rewrite Hbase.
  assert (Hsegs : Forall (fun p => p <> "") segs).
  { subst segs. destruct (String.eqb stem "__init__").
    - eapply Forall_impl; [exact Hdirs|]. now intros p (Hp & _).
    - apply Forall_app. split; [|now repeat constructor].
      eapply Forall_impl; [exact Hdirs|]. now intros p (Hp & _). }
  destruct segs as [|s0 segs0] eqn:E; [reflexivity|].
  assert (Hnz : str_truthy (str_join "." (s0 :: segs0)) = true).
  { apply str_truthy_true, str_join_nonempty; [discriminate | exact Hsegs]. }
  rewrite Hnz. now rewrite str_join_snoc by discriminate.
Qed.

Lemma build_python_fqn_of_clean_path_witness :
  _build_python_fqn (path_str (["pkg"; "sub"] ++ ["mod" +:+ ".py"])) "Foo" None
  = "pkg.sub.mod.Foo"
  /\ _build_python_fqn (path_str (["pkg"; "sub"] ++ ["__init__" +:+ ".py"])) "Foo" None
     = "pkg.sub.Foo".
Proof.
  split.
  - apply (build_python_fqn_of_clean_path ["pkg"; "sub"] "mod" "Foo").
    + repeat constructor; discriminate.
    + repeat constructor; discriminate.
  - apply (build_python_fqn_of_clean_path ["pkg"; "sub"] "__init__" "Foo").
    + repeat constructor; discriminate.
    + repeat constructor; discriminate.
Defined.

(* ================================================================= *)
(** ** More on docstrings *)

(** X12. A Python docstring is only ever read off a leading string
    statement: if one is returned, the body is a block whose first named
    child is an expression statement whose first named child is a string
    with some non-skipped text, and what is returned carries no leading or
    trailing whitespace.  In every other case the result is [None]. *)
Theorem python_docstring_only_from_leading_string {Language : Type}
    (decode : bytes -> string) (cfg : gmap string (LanguageConfig Language))
    (body_node : option Node) (content_bytes : bytes) (d : string) :
  get_docstring_from_python_node decode cfg body_node content_bytes = Some d ->
  (exists body first rest s rest',
      body_node = Some body
      /\ is_node_type cfg (Some body) "python" "block" = true
      /\ named_children body = first :: rest
      /\ is_node_type cfg (Some first) "python" "expression_statement" = true
      /\ named_children first = s :: rest'
      /\ is_node_type cfg (Some s) "python" "string" = true)
  /\ str_strip d = d.
Proof.
  unfold get_docstring_from_python_node. intros H.
  destruct body_node as [body|]; [|discriminate H].
  destruct (is_node_type cfg (Some body) "python" "block") eqn:Hblock;
    cbn [negb] in H; [|discriminate H].
  destruct (named_children body) as [|first rest] eqn:Hnc; [discriminate H|].
  destruct (named_children first) as [|s rest'] eqn:Hnc'; [discriminate H|].
  destruct (is_node_type cfg (Some first) "python" "expression_statement") eqn:Hexpr;
    cbn [andb] in H; [|discriminate H].
  destruct (is_node_type cfg (Some s) "python" "string") eqn:Hstr;
    [|discriminate H].
  match type of H with (if ?c then _ else _) = _ => destruct c end;
    [|discriminate H].
  injection H as <-. split.
  - exists body, first, rest, s, rest'. repeat split; assumption.
  - apply str_strip_idem.
Qed.

Lemma python_docstring_only_from_leading_string_witness :
  get_docstring_from_python_node ascii_decode (demo_LANG_CONFIG demo_grammar)
    (Some doc_body_anticipated) (list_byte_of_string doc_src)
  = Some ("line one" +:+ nl +:+ "line two")
  /\ str_strip ("line one" +:+ nl +:+ "line two") = "line one" +:+ nl +:+ "line two".
Proof.
  assert (H : get_docstring_from_python_node ascii_decode
                (demo_LANG_CONFIG demo_grammar) (Some doc_body_anticipated)
                (list_byte_of_string doc_src)
              = Some ("line one" +:+ nl +:+ "line two"))
    by (vm_compute; reflexivity).
  split; [exact H|].
  exact (proj2 (python_docstring_only_from_leading_string _ _ _ _ _ H)).
Defined.

Section RustDocstringsMore.

Variable decode : bytes -> string.

Local Abbreviation outer_lines :=
  (fun (content_bytes : bytes) (c : Node) =>
     rust_comment_lines decode "///" "/**" c content_bytes).

Lemma rust_outer_walk_comments (content_bytes : bytes) (prevs : list Node)
    (acc : list string) :
  Forall is_rust_comment prevs ->
  rust_outer_walk decode prevs content_bytes acc
  = acc ++ flat_map (outer_lines content_bytes) prevs.
Proof.
  intros H. revert acc. induction H as [|c prevs Hc _ IH]; intros acc;
    cbn [rust_outer_walk flat_map].
  - now rewrite app_nil_r.
  - unfold is_rust_comment in Hc. rewrite Hc, IH. now rewrite <- app_assoc.
Qed.

Lemma rev_flat_map {A B : Type} (f : A -> list B) (l : list A) :
  rev (flat_map f l) = flat_map (fun x => rev (f x)) (rev l).
Proof.
  induction l as [|x l IH]; [reflexivity|]. simpl.
  rewrite rev_app_distr, IH, flat_map_app. simpl. now rewrite app_nil_r.
Qed.

(** X13. For a function item whose preceding named siblings [comments]
    (in source order) are all comments, the docstring takes the comments
    in source order but each comment's own lines last-to-first: the single
    reversal that restores the order of the comments also reverses the
    lines a multi-line block comment contributed. *)
Theorem rust_docstring_reverses_within_comment
    (comments : list Node) (item : Node) (content_bytes : bytes) :
  Forall is_rust_comment comments ->
  node_type item = "function_item" ->
  let doc_lines :=
    flat_map (fun c => rev (outer_lines content_bytes c)) comments in
  get_docstring_from_rust_node decode (rev comments) item content_bytes
  = match doc_lines with
    | [] => None
    | _ => Some (str_strip (str_join nl doc_lines))
    end.
Proof.
  intros Hall Hitem doc_lines. unfold get_docstring_from_rust_node.
  rewrite rust_outer_walk_comments by (apply Forall_rev; exact Hall).
  rewrite app_nil_l, rev_flat_map, rev_involutive, Hitem. reflexivity.
Qed.

Lemma rust_outer_walk_stops (content_bytes : bytes) (run : list Node)
    (p : Node) (rest : list Node) (acc : list string) :
  Forall is_rust_comment run ->
  str_in (node_type p) rust_comment_types = false ->
  rust_outer_walk decode (run ++ p :: rest) content_bytes acc
  = rust_outer_walk decode run content_bytes acc.
Proof.
  intros H Hp. revert acc. induction H as [|c run Hc _ IH]; intros acc.
  - rewrite app_nil_l. cbn [rust_outer_walk]. now rewrite Hp.
  - change ((c :: run) ++ p :: rest) with (c :: (run ++ p :: rest)).
    cbn [rust_outer_walk]. unfold is_rust_comment in Hc. rewrite Hc. apply IH.
Qed.

(** X14. Only the comments immediately before the item count: the
    backward walk ends at the first sibling that is not a comment, and
    nothing before that sibling can reach the docstring. *)
Theorem rust_docstring_ignores_detached_comments
    (run : list Node) (p : Node) (rest : list Node) (item : Node)
    (content_bytes : bytes) :
  Forall is_rust_comment run ->
  str_in (node_type p) rust_comment_types = false ->
  get_docstring_from_rust_node decode (run ++ p :: rest) item content_bytes
  = get_docstring_from_rust_node decode run item content_bytes.
Proof.
  intros Hrun Hp. unfold get_docstring_from_rust_node.
  now rewrite rust_outer_walk_stops.
Qed.

End RustDocstringsMore.

(** [/** first\n * second */] before [fn f() {}] reads ["second\nfirst"]. *)
Lemma rust_docstring_reverses_within_comment_witness :
  rust_comment_lines ascii_decode "///" "/**" rs_block_comment
    (list_byte_of_string rs_block_src) = ["first"; "second"]
  /\ get_docstring_from_rust_node ascii_decode (rev [rs_block_comment])
       rs_block_item (list_byte_of_string rs_block_src)
     = Some ("second" +:+ nl +:+ "first").
Proof.
  split; [vm_compute; reflexivity|].
  rewrite rust_docstring_reverses_within_comment.
  - vm_compute. reflexivity.
  - repeat constructor.
  - reflexivity.
Defined.

(** A [use] declaration between [/// a] and the item hides [/// a]'s
    predecessors: with [/// c] nearest, then the declaration, then more
    comments, the docstring is that of [/// c] alone. *)
Lemma rust_docstring_ignores_detached_comments_witness :
  get_docstring_from_rust_node ascii_decode
    ([leaf "line_comment" 12 17] ++ leaf "use_declaration" 6 11
       :: [leaf "line_comment" 0 5])
    rs_item (list_byte_of_string rs_src)
  = Some "c".
Proof.
  rewrite rust_docstring_ignores_detached_comments.
  - vm_compute. reflexivity.
  - repeat constructor.
  - reflexivity.
Defined.

(* ================================================================= *)
(** ** Records *)

Lemma str_app_eq_nil (s t : string) : s +:+ t = "" -> t = "".
Proof. destruct s; [now rewrite str_app_nil_l | discriminate]. Qed.

Lemma flat_map_all_nil {A B : Type} (f : A -> list B) (l : list A) :
  (forall x, f x = []) -> flat_map f l = [].
Proof.
  intros H. induction l as [|x l IH]; [reflexivity|]. simpl. now rewrite H, IH.
Qed.

Section Records.

Context {Language : Type}.
Variable decode : bytes -> string.
Variable LANG_CONFIG : gmap string (LanguageConfig Language).

Local Abbreviation fn_details := (extract_py_function_details decode LANG_CONFIG).
Local Abbreviation ds_details := (extract_py_data_structure decode LANG_CONFIG).

(** X15. A function record is produced exactly when the name text is
    non-empty; it then carries that name, a qualified name that ends with
    it, the file's relative path, and one-based line numbers. *)
Theorem function_record_shape
    (func_node : Node) (rel : list string) (content_bytes : bytes)
    (parent_fqn : option string) :
  match fn_details func_node rel content_bytes parent_fqn with
  | Some fr =>
      fn_name fr <> ""
      /\ get_node_text decode (find_child_by_field_name (Some func_node) "name")
           content_bytes = Some (fn_name fr)
      /\ (exists prefix, fn_qualified_name fr = prefix +:+ fn_name fr)
      /\ fn_source_file fr = path_str rel
      /\ fn_line_start fr = start_row func_node + 1
      /\ fn_line_end fr = end_row func_node + 1
  | None =>
      opt_truthy (get_node_text decode
                    (find_child_by_field_name (Some func_node) "name")
                    content_bytes) = false
  end.
Proof.
  unfold extract_py_function_details.
  destruct (get_node_text decode _ content_bytes) as [func_name|]; [|reflexivity].
  destruct (str_truthy func_name) eqn:Ht; simpl; [|exact Ht].
  repeat split; try reflexivity.
  - now apply str_truthy_true.
  - apply build_python_fqn_suffix.
Qed.

Lemma function_record_qualified (func_node : Node) (rel : list string)
    (content_bytes : bytes) (parent : string) (fr : FunctionRecord) :
  fn_details func_node rel content_bytes (Some parent) = Some fr ->
  fn_qualified_name fr
  = _build_python_fqn (path_str rel) (fn_name fr) (Some parent).
Proof.
  unfold extract_py_function_details.
  destruct (get_node_text decode _ content_bytes) as [func_name|]; [|discriminate].
  destruct (str_truthy func_name); simpl; [|discriminate].
  now intros [= <-].
Qed.

(** X16. Methods are named below their class: a structure record has a
    non-empty qualified name, and each of its methods is named by that
    qualified name followed by [.method], or (when the class name already
    ends with the method's name) by the class's qualified name itself. *)
Theorem class_methods_below_class
    (class_node : Node) (rel : list string) (content_bytes : bytes)
    (parent_fqn : option string) (d : DataStructure) :
  ds_details class_node rel content_bytes parent_fqn = Some d ->
  ds_qualified_name d <> ""
  /\ forall m, m ∈ ds_methods d ->
       fn_qualified_name m = ds_qualified_name d
       \/ fn_qualified_name m = ds_qualified_name d +:+ "." +:+ fn_name m.
Proof.
  unfold extract_py_data_structure.
  destruct (get_node_text decode _ content_bytes) as [class_name|]; [|discriminate].
  destruct (str_truthy class_name) eqn:Ht; cbn [negb]; [|discriminate].
  intros [= <-]. cbn [ds_qualified_name ds_methods].
  assert (Hqn : _build_python_fqn (path_str rel) class_name parent_fqn <> "").
  { destruct (build_python_fqn_suffix (path_str rel) class_name parent_fqn)
      as [prefix ->].
    intros H. apply str_app_eq_nil in H. subst class_name. discriminate Ht. }
  split; [exact Hqn|].
  intros m Hm. apply list_elem_of_omap in Hm as (child & _ & Hchild).
  match type of Hchild with (if ?c then _ else _) = _ => destruct c end;
    [|discriminate Hchild].
  rewrite (function_record_qualified _ _ _ _ _ Hchild).
  now apply build_python_fqn_parent_cases.
Qed.

(** X17. Class fields need an [assignment] alias: under a registry whose
    Python node-type table has none (as the shipped one), no field is ever
    recorded, whatever the class body holds. *)
Theorem class_fields_need_assignment_alias
    (class_node : Node) (rel : list string) (content_bytes : bytes)
    (parent_fqn : option string) (d : DataStructure) :
  assoc_get "assignment" (get_lang_config_val_node_types LANG_CONFIG "python") = None ->
  ds_details class_node rel content_bytes parent_fqn = Some d ->
  ds_fields d = [].
Proof.
  intros Hcfg. unfold extract_py_data_structure.
  destruct (get_node_text decode _ content_bytes) as [class_name|]; [|discriminate].
  destruct (str_truthy class_name); cbn [negb]; [|discriminate].
  intros [= <-]. cbn [ds_fields]. apply flat_map_all_nil. intros child.
  match goal with |- (if ?c then _ else _) = _ => destruct c end; [reflexivity|].
  match goal with |- (if ?c then _ else _) = _ => destruct c end; [|reflexivity].
  unfold class_field_of. destruct (named_child child 0) as [e|]; [|reflexivity].
  unfold is_node_type, LANG. now rewrite Hcfg.
Qed.

(** X18. A signature never shows the placeholder, has at most one entry
    per named child of the parameter list, and always names a return
    type (["unknown"] when none can be read). *)
Theorem signature_invariants (func_node : Node) (content_bytes : bytes) :
  let sg := extract_py_signature decode func_node content_bytes in
  Forall (fun p => param_name p <> "_unknown_") (sig_params sg)
  /\ length (sig_params sg)
     <= match child_by_field_name func_node "parameters" with
        | Some param_list_node => named_child_count param_list_node
        | None => 0
        end
  /\ sig_return_type sg <> "".
Proof.
  unfold extract_py_signature. simpl. split; [|split].
  - destruct (child_by_field_name func_node "parameters") as [pl|]; [|constructor].
    apply list.Forall_forall. intros p Hp.
    apply list_elem_of_filter in Hp as [Hp _].
    apply Is_true_true in Hp. apply negb_true_iff in Hp.
    now apply String.eqb_neq in Hp.
  - destruct (child_by_field_name func_node "parameters") as [pl|]; [|simpl; lia].
    unfold named_child_count.
    etransitivity; [apply length_filter|]. now rewrite length_map.
  - destruct (child_by_field_name func_node "return_type") as [rt|]; [|discriminate].
    unfold opt_or. simpl.
    destruct (str_truthy (node_text decode rt content_bytes)) eqn:E; [|discriminate].
    now apply str_truthy_true.
Qed.

End Records.

Lemma class_methods_below_class_witness :
  exists d,
    extract_py_data_structure ascii_decode (demo_LANG_CONFIG demo_grammar) cls_class
      ["sub"; "util.py"] (list_byte_of_string cls_src) (Some "pkg.sub.util") = Some d
    /\ ds_qualified_name d = "pkg.sub.util.Outer"
    /\ Forall (fun m => fn_qualified_name m = ds_qualified_name d
                        \/ fn_qualified_name m
                           = ds_qualified_name d +:+ "." +:+ fn_name m)
              (ds_methods d)
    /\ map fn_qualified_name (ds_methods d) = ["pkg.sub.util.Outer.Foo"].
Proof.
  eexists. split; [vm_compute; reflexivity|].
  split; [reflexivity|]. split; [|reflexivity].
  apply list.Forall_forall. intros m Hm.
  refine (proj2 (class_methods_below_class ascii_decode (demo_LANG_CONFIG demo_grammar)
                   cls_class ["sub"; "util.py"] (list_byte_of_string cls_src)
                   (Some "pkg.sub.util") _ _) m _).
  - vm_compute. reflexivity.
  - exact Hm.
Defined.

Lemma class_fields_need_assignment_alias_witness :
  assoc_get "assignment"
    (get_lang_config_val_node_types (demo_LANG_CONFIG demo_grammar) "python") = None
  /\ option_map ds_fields
       (extract_py_data_structure ascii_decode (demo_LANG_CONFIG demo_grammar)
          cls_class ["sub"; "util.py"] (list_byte_of_string cls_src)
          (Some "pkg.sub.util")) = Some [].
Proof.
  split; [reflexivity|].
  destruct (extract_py_data_structure ascii_decode (demo_LANG_CONFIG demo_grammar)
              cls_class ["sub"; "util.py"] (list_byte_of_string cls_src)
              (Some "pkg.sub.util")) as [d|] eqn:E.
  - simpl. f_equal.
    apply (class_fields_need_assignment_alias ascii_decode
             (demo_LANG_CONFIG demo_grammar) cls_class ["sub"; "util.py"]
             (list_byte_of_string cls_src) (Some "pkg.sub.util") d);
      [reflexivity | exact E].
  - vm_compute in E. discriminate E.
Defined.

(* ================================================================= *)
(** ** More on file processing *)

Set Warnings "-clear-no-such-hyp".

Lemma str_in_In (x : string) (l : list string) : str_in x l = true <-> In x l.
Proof.
  unfold str_in. rewrite existsb_exists. split.
  - intros (y & Hin & Heq). apply String.eqb_eq in Heq. now subst y.
  - intros Hin. exists x. split; [exact Hin | apply String.eqb_refl].
Qed.

Lemma add_key_NoDup (ks : list string) (k : option string) :
  NoDup ks -> NoDup (add_key ks k).
Proof.
  intros Hnd. destruct k as [k|]; [|exact Hnd]. simpl.
  destruct (existsb (String.eqb k) ks) eqn:E; [exact Hnd|].
  apply NoDup_app. split; [exact Hnd|]. split.
  - intros x Hx Hx'. apply list_elem_of_singleton in Hx'. subst x.
    apply list_elem_of_In in Hx.
    assert (Ht : existsb (String.eqb k) ks = true).
    { apply existsb_exists. exists k. split; [exact Hx | apply String.eqb_refl]. }
    rewrite Ht in E. discriminate E.
  - apply NoDup_singleton.
Qed.

Lemma fold_add_key_NoDup (opts : list (option string)) (ks : list string) :
  NoDup ks -> NoDup (fold_left add_key opts ks).
Proof.
  revert ks. induction opts as [|k opts IH]; intros ks Hnd; simpl; [exact Hnd|].
  apply IH, add_key_NoDup, Hnd.
Qed.

Section Processing.

Context {Language Parser Query : Type}.
Variable decode : bytes -> string.
Variable LANG_CONFIG : gmap string (LanguageConfig Language).
Variable new_parser : Language -> option Parser.
Variable compile_query : Language -> string -> option Query.
Variable ts_parse : Parser -> bytes -> Node.
Variable LANG_MAP : list (string * string).

Local Abbreviation step :=
  (process_file decode LANG_CONFIG new_parser compile_query ts_parse LANG_MAP).
Local Abbreviation run_target :=
  (process_target decode LANG_CONFIG new_parser compile_query ts_parse LANG_MAP).
Local Abbreviation records := (top_level_records decode LANG_CONFIG LANG_MAP).
Local Abbreviation route := (route_top_level decode LANG_CONFIG LANG_MAP).
Local Abbreviation world := (@World Parser Query).

(** X19. A file below an ignored directory, with an ignored name, or with
    a suffix that [LANG_MAP] does not know is skipped outright: the whole
    state (pool, languages, components) is left as it was. *)
Theorem process_file_skips (f : SourceFile) (root : list string) (t : string)
    (w : world) :
  (exists part, In part (rel_parts f) /\ In part IGNORE_DIRS)
  \/ In (default "" (last (root ++ rel_parts f))) IGNORE_FILES
  \/ assoc_get (str_lower (path_suffix (default "" (last (root ++ rel_parts f)))))
       LANG_MAP = None ->
  step f root t w = w.
Proof.
  intros H. unfold process_file.
  assert (Hlang : file_language LANG_MAP (rel_parts f) root = None).
  { unfold file_language. destruct H as [(part & Hin & Hign)|[Hname|Hext]].
    - assert (E : existsb (fun part => str_in part IGNORE_DIRS) (rel_parts f) = true).
      { apply existsb_exists. exists part. split; [exact Hin | now apply str_in_In]. }
      now rewrite E.
    - apply str_in_In in Hname. rewrite Hname, orb_true_r. reflexivity.
    - rewrite Hext. now destruct (_ || _). }
  now rewrite Hlang.
Qed.

Lemma file_language_python (rel root : list string) (lang : string) :
  file_language LANG_MAP rel root = Some lang -> lang = "python".
Proof.
  unfold file_language. destruct (_ || _); [discriminate|].
  destruct (assoc_get _ LANG_MAP) as [l|]; [|discriminate].
  destruct (negb (str_truthy l) || negb (String.eqb l "python")) eqn:E;
    [discriminate|].
  intros [= <-]. apply orb_false_iff in E as [_ E].
  apply negb_false_iff in E. now apply String.eqb_eq.
Qed.

Lemma process_file_languages (f : SourceFile) (root : list string) (t : string)
    (w : world) :
  languages_present w ⊆ languages_present (step f root t w)
  /\ languages_present (step f root t w) ⊆ {[ "python" ]} ∪ languages_present w.
Proof.
  unfold process_file.
  destruct (file_language LANG_MAP (rel_parts f) root) as [lang|] eqn:Hlang;
    [|set_solver].
  apply file_language_python in Hlang. subst lang.
  destruct (content f) as [bs|]; [|simpl; set_solver].
  destruct (parse_code _ _ _ _ bs "python" (pool w)) as [[root_node|] p'];
    simpl; set_solver.
Qed.

(** X20. The only language the run ever records is Python, and a language
    once recorded stays recorded. *)
Theorem languages_present_only_python
    (targets : list (list string * string * list SourceFile)) (w : world) :
  languages_present w ⊆ languages_present (fold_left run_target targets w)
  /\ languages_present (fold_left run_target targets w)
     ⊆ {[ "python" ]} ∪ languages_present w.
Proof.
  assert (Hfiles : forall root t files (w : world),
    languages_present w
      ⊆ languages_present (fold_left (fun w f => step f root t w) files w)
    /\ languages_present (fold_left (fun w f => step f root t w) files w)
       ⊆ {[ "python" ]} ∪ languages_present w).
  { intros root t files. induction files as [|f files IH]; intros w0; simpl;
      [set_solver|].
    destruct (process_file_languages f root t w0) as [H1 H2].
    destruct (IH (step f root t w0)) as [H3 H4]. set_solver. }
  revert w. induction targets as [|[[root t] files] targets IH]; intros w; simpl;
    [set_solver|].
  destruct (Hfiles root t files w) as [H1 H2].
  destruct (IH (fold_left (fun w f => step f root t w) files w)) as [H3 H4].
  set_solver.
Qed.

(** X21. Component ids stay distinct: from a store whose keys are distinct
    and whose entries sit under their own ids, every run emits components
    with pairwise distinct ids. *)
Theorem output_ids_distinct
    (targets : list (list string * string * list SourceFile)) (w0 : world) :
  NoDup (map fst (components w0)) ->
  keyed component_id (components w0) ->
  NoDup (map component_id
           (main_components decode LANG_CONFIG new_parser compile_query ts_parse
              LANG_MAP w0 targets)).
Proof.
  intros Hnd Hkeyed. unfold main_components, final_components.
  rewrite keyed_ids by (apply run_targets_keyed; exact Hkeyed).
  rewrite run_targets_keys. apply fold_add_key_NoDup, Hnd.
Qed.

Lemma route_test_file_no_functions (node : Node) (lang : string)
    (rel : list string) (bs : bytes) (t : string) :
  new_funcs (route node lang rel bs t true) = [].
Proof.
  unfold route_top_level.
  destruct (is_node_type LANG_CONFIG (Some node) lang "class_def").
  - now destruct (extract_py_data_structure _ _ _ _ _ _).
  - now destruct (is_node_type LANG_CONFIG (Some node) lang "func_def").
Qed.

Lemma route_plain_file (node : Node) (lang : string)
    (rel : list string) (bs : bytes) (t : string) :
  Forall (fun spec => exists u, ts_scenario spec = "test_" +:+ u)
         (new_tests (route node lang rel bs t false))
  /\ Forall (fun fr => str_startswith (fn_name fr) "test_" = false)
            (new_funcs (route node lang rel bs t false)).
Proof.
  unfold route_top_level.
  destruct (is_node_type LANG_CONFIG (Some node) lang "class_def").
  { destruct (extract_py_data_structure _ _ _ _ _ _); split; constructor. }
  destruct (is_node_type LANG_CONFIG (Some node) lang "func_def");
    [|split; constructor].
  cbn [orb].
  unfold extract_py_test_specifications, extract_py_function_details.
  destruct (get_node_text decode _ bs) as [name|]; cbn [opt_or].
  2: { simpl. split; constructor. }
  destruct (str_truthy name) eqn:Ht; cbn [negb].
  2: { simpl. split; constructor. }
  destruct (str_startswith name "test_") eqn:Hs.
  - split; [|constructor]. repeat constructor. simpl.
    now apply str_startswith_spec.
  - split; [constructor|]. repeat constructor. exact Hs.
Qed.

(** X22. Routing at the level of a file.  In a test file no top-level
    function is recorded as a function.  In any other file every recorded
    test specification has a scenario starting with ["test_"], and no
    recorded function has such a name. *)
Theorem file_routing (root_node : Node) (lang : string) (rel : list string)
    (bs : bytes) (t : string) :
  new_funcs (records root_node lang rel bs t true) = []
  /\ Forall (fun spec => exists u, ts_scenario spec = "test_" +:+ u)
            (new_tests (records root_node lang rel bs t false))
  /\ Forall (fun fr => str_startswith (fn_name fr) "test_" = false)
            (new_funcs (records root_node lang rel bs t false)).
Proof.
  rewrite !top_level_records_in_source_order. cbn [new_funcs new_tests].
  split; [|split].
  - apply flat_map_all_nil. intros n. apply route_test_file_no_functions.
  - apply Forall_flat_map, list.Forall_forall. intros n _.
    apply (route_plain_file n lang rel bs t).
  - apply Forall_flat_map, list.Forall_forall. intros n _.
    apply (route_plain_file n lang rel bs t).
Qed.

End Processing.

(* ================================================================= *)
(** ** Requirement names and Rust names *)

Lemma split_head_free (c : ascii) (s : string) :
  str_free c (split_head c s) = true.
Proof.
  unfold split_head, str_free. induction s as [|a s IH]; [reflexivity|].
  cbn [str_split]. destruct (Ascii.eqb a c) eqn:E; [reflexivity|].
  destruct (str_split c s) as [|w ws]; simpl; rewrite E; [reflexivity|].
  exact IH.
Qed.

Lemma split_head_prefix (c : ascii) (s : string) :
  exists t, s = split_head c s +:+ t.
Proof.
  unfold split_head. induction s as [|a s IH]; [now exists ""|].
  cbn [str_split]. destruct (Ascii.eqb a c).
  - now exists (String a s).
  - destruct IH as [t Ht]. destruct (str_split c s) as [|w ws].
    + exists s. reflexivity.
    + exists t. rewrite str_app_cons. now rewrite <- Ht.
Qed.

Lemma str_lstrip_suffix (p : ascii -> bool) (s : string) :
  exists u, s = u +:+ str_lstrip_with p s.
Proof.
  induction s as [|a s IH]; [now exists ""|]. simpl.
  destruct (p a); [|now exists ""].
  destruct IH as [u Hu]. exists (String a u). rewrite str_app_cons. now rewrite <- Hu.
Qed.

Lemma str_rstrip_prefix (p : ascii -> bool) (s : string) :
  exists u, s = str_rstrip_with p s +:+ u.
Proof.
  induction s as [|a s IH]; [now exists ""|].
  rewrite str_rstrip_cons. destruct IH as [u Hu].
  destruct (str_rstrip_with p s) as [|b r].
  - destruct (p a); [now exists (String a s)|].
    exists s. reflexivity.
  - exists u. rewrite str_app_cons. now rewrite <- Hu.
Qed.

Lemma str_free_prefix (c : ascii) (x t : string) :
  str_free c (x +:+ t) = true -> str_free c x = true.
Proof. rewrite str_free_app. intros H. now apply andb_true_iff in H as [H _]. Qed.

Lemma str_free_suffix (c : ascii) (x t : string) :
  str_free c (x +:+ t) = true -> str_free c t = true.
Proof. rewrite str_free_app. intros H. now apply andb_true_iff in H as [_ H]. Qed.

Lemma split_head_keeps_free (c d : ascii) (s : string) :
  str_free c s = true -> str_free c (split_head d s) = true.
Proof.
  intros H. destruct (split_head_prefix d s) as [t Ht].
  rewrite Ht in H. now apply str_free_prefix in H.
Qed.

Lemma str_strip_keeps_free (c : ascii) (s : string) :
  str_free c s = true -> str_free c (str_strip s) = true.
Proof.
  intros H. unfold str_strip.
  destruct (str_lstrip_suffix chr_isspace s) as [u Hu].
  rewrite Hu in H. apply str_free_suffix in H.
  destruct (str_rstrip_prefix chr_isspace (str_lstrip_with chr_isspace s)) as [v Hv].
  rewrite Hv in H. now apply str_free_prefix in H.
Qed.

Lemma split_head_id (c : ascii) (s : string) :
  str_free c s = true -> split_head c s = s.
Proof. intros H. unfold split_head. now rewrite str_split_free. Qed.

(** X23. The name part cut from a requirement string contains none of
    the characters [[], [<], [>], [=], [~], and carries no leading or
    trailing whitespace; a requirement that is already a bare, trimmed
    name is its own name part. *)
Theorem requirement_name_part_spec (req_str : string) :
  Forall (fun c => str_free c (requirement_name_part req_str) = true)
         ["["%char; "<"%char; ">"%char; "="%char; "~"%char]
  /\ str_strip (requirement_name_part req_str) = requirement_name_part req_str
  /\ (Forall (fun c => str_free c req_str = true)
             ["["%char; "<"%char; ">"%char; "="%char; "~"%char] ->
      str_strip req_str = req_str ->
      requirement_name_part req_str = req_str).
Proof.
  unfold requirement_name_part. split; [|split].
  - repeat constructor; apply str_strip_keeps_free;
      repeat first [ apply split_head_free | apply split_head_keeps_free ].
  - apply str_strip_idem.
  - intros Hall Hstrip.
    inversion Hall as [|? ? H1 Hall1]; subst.
    inversion Hall1 as [|? ? H2 Hall2]; subst.
    inversion Hall2 as [|? ? H3 Hall3]; subst.
    inversion Hall3 as [|? ? H4 Hall4]; subst.
    inversion Hall4 as [|? ? H5 _]; subst.
    now rewrite (split_head_id _ _ H1), (split_head_id _ _ H2),
      (split_head_id _ _ H3), (split_head_id _ _ H4), (split_head_id _ _ H5).
Qed.

(** X24. Every dependency read from a PEP 621 list has a non-empty name,
    keeps the whole requirement string as its version spec, and comes
    from the list; requirements whose name part is empty are dropped. *)
Theorem pep621_dependencies_spec (deps_raw : list string) :
  Forall (fun d => dep_name d <> ""
                   /\ dep_name d = requirement_name_part (dep_version_spec d)
                   /\ In (dep_version_spec d) deps_raw
                   /\ dep_source d = "pypi")
         (pep621_dependencies deps_raw)
  /\ map dep_version_spec (pep621_dependencies deps_raw)
     = filter (fun r => requirement_name_part r <> "") deps_raw.
Proof.
  unfold pep621_dependencies. split.
  - apply Forall_flat_map, list.Forall_forall. intros req Hreq.
    destruct (str_truthy (requirement_name_part req)) eqn:E; [|constructor].
    repeat constructor; simpl; try reflexivity.
    + now apply str_truthy_true.
    + now apply list_elem_of_In.
  - induction deps_raw as [|req l IH]; [reflexivity|]. simpl.
    destruct (str_truthy (requirement_name_part req)) eqn:E.
    + rewrite filter_cons_True by (now apply str_truthy_true). simpl. now rewrite IH.
    + rewrite filter_cons_False; [exact IH|].
      intros H. apply str_truthy_true in H. rewrite H in E. discriminate E.
Qed.

Lemma str_app_inj_r (s s' t : string) : s +:+ t = s' +:+ t -> s = s'.
Proof.
  revert s'. induction s as [|a s IH]; intros [|a' s'] H.
  - reflexivity.
  - exfalso. apply (f_equal String.length) in H.
    rewrite str_app_nil_l, str_length_app in H. simpl in H. lia.
  - exfalso. apply (f_equal String.length) in H.
    rewrite str_app_nil_l, str_length_app in H. simpl in H. lia.
  - rewrite !str_app_cons in H. injection H as -> H. f_equal. now apply IH.
Qed.

Lemma filter_Forall_ext {A : Type} (P Q : A -> Prop)
    `{forall x, Decision (P x)} `{forall x, Decision (Q x)} (l : list A) :
  Forall (fun x => P x <-> Q x) l -> filter P l = filter Q l.
Proof.
  induction 1 as [|x l Hx _ IH]; [reflexivity|].
  rewrite !filter_cons, IH.
  destruct (decide (P x)), (decide (Q x)); tauto.
Qed.

(** X25. Colon-style names from well-formed paths: for [dirs/stem.rs],
    a Rust item is named by the directories and the stem, without any
    [src] segment, joined by [::] and followed by the item's name; the
    stems [mod] and [lib] are left out. *)
Theorem rust_qualified_name_of_clean_path
    (dirs : list string) (stem name : string) :
  Forall part_clean dirs ->
  stem <> "" ->
  str_free "/" stem = true ->
  rust_qualified_name (path_str (dirs ++ [stem +:+ ".rs"])) name
  = Some (str_join "::"
            (filter (fun part => part <> "src")
                    (if String.eqb stem "mod" || String.eqb stem "lib"
                     then dirs else dirs ++ [stem])
             ++ [name])).
Proof.
  intros Hdirs Hne Hfree. unfold rust_qualified_name.
  rewrite path_parts_round_trip.
  2: { apply Forall_app. split; [exact Hdirs|]. repeat constructor.
       - destruct stem; [contradiction | discriminate].
       - destruct stem as [|a [|b s]]; discriminate.
       - rewrite str_free_app, Hfree. reflexivity. }
  rewrite last_snoc. unfold list_pop. rewrite removelast_last.
  assert (Hmod : String.eqb (stem +:+ ".rs") "mod.rs" = String.eqb stem "mod").
  { destruct (String.eqb_spec stem "mod") as [->|Hn]; [reflexivity|].
    apply String.eqb_neq. intros H. apply Hn.
    now apply (str_app_inj_r stem "mod" ".rs"). }
  assert (Hlib : String.eqb (stem +:+ ".rs") "lib.rs" = String.eqb stem "lib").
  { destruct (String.eqb_spec stem "lib") as [->|Hn]; [reflexivity|].
    apply String.eqb_neq. intros H. apply Hn.
    now apply (str_app_inj_r stem "lib" ".rs"). }
  rewrite Hmod, Hlib.
  assert (Hclean : forall l, Forall (fun p => p <> "") l ->
    filter (fun part => str_truthy part && negb (String.eqb part "src")) l
    = filter (fun part => part <> "src") l).
  { intros l Hl. apply filter_Forall_ext. eapply Forall_impl; [exact Hl|].
    intros p Hp. simpl. apply str_truthy_true in Hp. rewrite Hp. simpl.
    rewrite Is_true_true, negb_true_iff. apply String.eqb_neq. }
  assert (Hdirs' : Forall (fun p => p <> "") dirs).
  { eapply Forall_impl; [exact Hdirs|]. now intros p (Hp & _). }
  destruct (String.eqb stem "mod" || String.eqb stem "lib").
  - now rewrite Hclean.
  - assert (Hends : str_endswith (stem +:+ ".rs") ".rs" = true).
    { apply str_endswith_spec. now exists stem. }
    rewrite Hends. unfold str_drop_last3. rewrite str_length_app. simpl.
    replace (String.length stem + 3 - 3) with (String.length stem) by lia.
    rewrite str_take_app. rewrite Hclean; [reflexivity|].
    apply Forall_app. split; [exact Hdirs' | now repeat constructor].
Qed.

(* ================================================================= *)
(** ** Worked instances *)

(** After Python is initialised, initialising an unknown language leaves
    Python's parser and compiled queries alone. *)
Lemma pool_cache_is_stable_witness :
  parsers pool_after_python !! "python" = Some demo_grammar
  /\ parsers (snd (_initialize_parser flaky_LANG_CONFIG demo_new_parser
                     flaky_compile_query "rust" pool_after_python)) !! "python"
     = Some demo_grammar
  /\ _queries_compiled
       (snd (_initialize_parser flaky_LANG_CONFIG demo_new_parser
               flaky_compile_query "rust" pool_after_python)) !! "python"
     = _queries_compiled pool_after_python !! "python".
Proof.
  assert (Hp : parsers pool_after_python !! "python" = Some demo_grammar)
    by reflexivity.
  split; [exact Hp|].
  apply (pool_cache_is_stable flaky_LANG_CONFIG demo_new_parser
           flaky_compile_query demo_ts_parse "python" demo_grammar
           pool_after_python _ Hp).
  apply rtc_once. apply pool_step_init.
Defined.

Lemma compiled_set_is_compilation_of_registry_witness :
  NoDup (map fst flaky_queries)
  /\ compile_queries flaky_compile_query demo_grammar flaky_queries !! "broken" = None
  /\ compile_queries flaky_compile_query demo_grammar flaky_queries !! "classes"
     = Some "(class_definition) @c".
Proof.
  assert (Hnd : NoDup (map fst flaky_queries)).
  { apply NoDup_ListNoDup. repeat constructor; simpl; intuition discriminate. }
  split; [exact Hnd|]. split.
  - now rewrite (compiled_set_is_compilation_of_registry flaky_compile_query
                   demo_grammar flaky_queries "broken" Hnd).
  - now rewrite (compiled_set_is_compilation_of_registry flaky_compile_query
                   demo_grammar flaky_queries "classes" Hnd).
Defined.

Lemma component_id_of_module_witness :
  find_component_id_for_lib demo_LANG_MAP (path_str (["sub"] ++ ["util" +:+ ".py"]))
    "pkg" = "pkg.sub.util".
Proof.
  apply (component_id_of_module demo_LANG_MAP ["sub"] "util" "pkg").
  - repeat constructor; discriminate.
  - discriminate.
  - reflexivity.
  - simpl. tauto.
  - reflexivity.
Defined.

(** [sub/__init__.py], [sub/mod.py] and [sub/lib.py] all land in [pkg.sub]. *)
Lemma component_id_of_module_root_witness :
  find_component_id_for_lib demo_LANG_MAP (path_str (["sub"] ++ ["__init__" +:+ ".py"]))
    "pkg" = "pkg.sub"
  /\ find_component_id_for_lib demo_LANG_MAP (path_str (["sub"] ++ ["mod" +:+ ".py"]))
       "pkg" = "pkg.sub"
  /\ find_component_id_for_lib demo_LANG_MAP (path_str ([] ++ ["__init__" +:+ ".py"]))
       "pkg" = "pkg".
Proof.
  split; [|split].
  - apply (component_id_of_module_root demo_LANG_MAP ["sub"] "__init__" "pkg").
    + repeat constructor; discriminate.
    + simpl. tauto.
    + tauto.
    + discriminate.
  - apply (component_id_of_module_root demo_LANG_MAP ["sub"] "mod" "pkg").
    + repeat constructor; discriminate.
    + simpl. tauto.
    + tauto.
    + discriminate.
  - apply (component_id_of_module_root demo_LANG_MAP [] "__init__" "pkg").
    + constructor.
    + simpl. tauto.
    + tauto.
    + discriminate.
Defined.

(** A file under [docs/], a [setup.py] and a [README.md] change nothing. *)
Lemma process_file_skips_witness :
  demo_process_file demo_grammar (file_of ["docs"; "conf.py"] foobar_src)
    demo_root "pkg" world_after_m = world_after_m
  /\ demo_process_file demo_grammar (file_of ["setup.py"] foobar_src)
       demo_root "pkg" world_after_m = world_after_m
  /\ demo_process_file demo_grammar (file_of ["README.md"] foobar_src)
       demo_root "pkg" world_after_m = world_after_m.
Proof.
  split; [|split]; apply process_file_skips.
  - left. exists "docs". split; simpl; tauto.
  - right. left. simpl. tauto.
  - right. right. reflexivity.
Defined.

Lemma output_ids_distinct_witness :
  NoDup (map component_id unsorted_run).
Proof.
  apply output_ids_distinct.
  - apply NoDup_nil_2.
  - constructor.
Defined.

(** [src/net/mod.rs] names [connect] as [net::connect]; [src/net/tcp.rs]
    names it [net::tcp::connect]. *)
Lemma rust_qualified_name_of_clean_path_witness :
  rust_qualified_name (path_str (["src"; "net"] ++ ["mod" +:+ ".rs"])) "connect"
  = Some "net::connect"
  /\ rust_qualified_name (path_str (["src"; "net"] ++ ["tcp" +:+ ".rs"])) "connect"
     = Some "net::tcp::connect".
Proof.
  split.
  - rewrite rust_qualified_name_of_clean_path.
    + reflexivity.
    + repeat constructor; discriminate.
    + discriminate.
    + reflexivity.
  - rewrite rust_qualified_name_of_clean_path.
    + reflexivity.
    + repeat constructor; discriminate.
    + discriminate.
    + reflexivity.
Defined.

(* ================================================================= *)
(** ** Start-up, classification and repeated processing *)

Section Startup.

Context {Language Parser Query : Type}.
Variable decode : bytes -> string.
Variable LANG_CONFIG : gmap string (LanguageConfig Language).
Variable new_parser : Language -> option Parser.
Variable compile_query : Language -> string -> option Query.
Variable ts_parse : Parser -> bytes -> Node.
Variable LANG_MAP : list (string * string).

Local Abbreviation init := (_initialize_parser LANG_CONFIG new_parser compile_query).
Local Abbreviation parse := (parse_code LANG_CONFIG new_parser compile_query ts_parse).
Local Abbreviation parser_for := (parser_of LANG_CONFIG new_parser compile_query).
Local Abbreviation step :=
  (process_file decode LANG_CONFIG new_parser compile_query ts_parse LANG_MAP).
Local Abbreviation cid_of := (find_component_id_for_lib LANG_MAP).
Local Abbreviation records := (top_level_records decode LANG_CONFIG LANG_MAP).
Local Abbreviation world := (@World Parser Query).

Lemma init_twice (lang : string) (st : @Pool Parser Query) :
  init lang (snd (init lang st)) = init lang st.
Proof.
  unfold _initialize_parser.
  destruct (parsers st !! lang) as [p|] eqn:Hp; simpl.
  - now rewrite Hp.
  - destruct (LANG_CONFIG !! lang) as [cfg|] eqn:Hcfg; simpl;
      [|now rewrite ?Hp].
    destruct (language cfg) as [l|] eqn:Hl; simpl; [|now rewrite ?Hp, ?Hl].
    destruct (new_parser l) as [p|] eqn:Hnew; simpl;
      [|now rewrite ?Hp, ?Hl, ?Hnew].
    now rewrite lookup_insert_eq.
Qed.

(** Initialising [l] leaves the entries of every other language alone. *)
Lemma init_entry_other (lang l : string) (st : @Pool Parser Query) :
  lang <> l ->
  parsers (snd (init l st)) !! lang = parsers st !! lang
  /\ _queries_compiled (snd (init l st)) !! lang = _queries_compiled st !! lang.
Proof.
  intros Hne. unfold _initialize_parser.
  destruct (parsers st !! l) as [p|]; [now split|].
  destruct (LANG_CONFIG !! l) as [cfg|]; [|now split].
  destruct (language cfg) as [lg|]; [|now split].
  destruct (new_parser lg) as [p|]; [|now split].
  simpl. split; apply lookup_insert_ne; congruence.
Qed.

(** What initialising [lang] leaves under [lang] depends only on what
    was under [lang]. *)
Lemma init_entry_dep (lang : string) (s1 s2 : @Pool Parser Query) :
  parsers s1 !! lang = parsers s2 !! lang ->
  _queries_compiled s1 !! lang = _queries_compiled s2 !! lang ->
  parsers (snd (init lang s1)) !! lang = parsers (snd (init lang s2)) !! lang
  /\ _queries_compiled (snd (init lang s1)) !! lang
     = _queries_compiled (snd (init lang s2)) !! lang.
Proof.
  intros Hp Hq. unfold _initialize_parser. rewrite Hp.
  destruct (parsers s2 !! lang) as [p|] eqn:Hp2; [simpl; now rewrite Hp2|].
  destruct (LANG_CONFIG !! lang) as [cfg|]; [|simpl; now rewrite Hp2].
  destruct (language cfg) as [lg|]; [|simpl; now rewrite Hp2].
  destruct (new_parser lg) as [p|]; [|simpl; now rewrite Hp2].
  simpl. now rewrite !lookup_insert_eq.
Qed.

Lemma init_fold_entry (langs : list string) (lang : string)
    (st : @Pool Parser Query) :
  let st' := fold_left (fun st l => snd (init l st)) langs st in
  let one := if bool_decide (lang ∈ langs) then snd (init lang st) else st in
  parsers st' !! lang = parsers one !! lang
  /\ _queries_compiled st' !! lang = _queries_compiled one !! lang.
Proof.
  revert st. induction langs as [|l langs IH]; intros st; [now split|].
  cbv zeta in IH |- *. cbn [fold_left].
  destruct (IH (snd (init l st))) as [IHp IHq]. rewrite IHp, IHq. clear IHp IHq.
  destruct (decide (lang = l)) as [->|Hne].
  - rewrite (bool_decide_eq_true_2 (l ∈ l :: langs)) by left.
    rewrite init_twice. now destruct (bool_decide (l ∈ langs)).
  - destruct (init_entry_other lang l st Hne) as [Hp Hq].
    destruct (bool_decide (lang ∈ langs)) eqn:E.
    + apply bool_decide_eq_true_1 in E.
      rewrite (bool_decide_eq_true_2 (lang ∈ l :: langs)) by (now right).
      now apply init_entry_dep.
    + apply bool_decide_eq_false_1 in E.
      rewrite (bool_decide_eq_false_2 (lang ∈ l :: langs)); [now split|].
      intros H. apply elem_of_cons in H as [H|H]; [congruence | contradiction].
Qed.

(** X26. Start-up stops the run exactly when the registry is empty.
    Otherwise, in the pool it leaves: a language that had a parser keeps it
    and its compiled queries; a language that had none and for which the
    registry entry yields a parser has that parser and the compilation of
    the entry's queries; a language that had none and for which no parser
    can be built has none, its compiled-query entry untouched. *)
Theorem initialize_parsers_spec (st : @Pool Parser Query) :
  (initialize_parsers LANG_CONFIG new_parser compile_query st = None
   <-> LANG_CONFIG = ∅)
  /\ forall st', initialize_parsers LANG_CONFIG new_parser compile_query st = Some st' ->
       forall lang,
         (forall p, parsers st !! lang = Some p ->
            parsers st' !! lang = Some p
            /\ _queries_compiled st' !! lang = _queries_compiled st !! lang)
         /\ (forall cfg l p,
               parsers st !! lang = None -> LANG_CONFIG !! lang = Some cfg ->
               language cfg = Some l -> new_parser l = Some p ->
               parsers st' !! lang = Some p
               /\ _queries_compiled st' !! lang
                  = Some (compile_queries compile_query l (queries cfg)))
         /\ (parsers st !! lang = None ->
             (forall cfg l, LANG_CONFIG !! lang = Some cfg -> language cfg = Some l ->
                new_parser l = None) ->
             parsers st' !! lang = None
             /\ _queries_compiled st' !! lang = _queries_compiled st !! lang).
Proof.
  unfold initialize_parsers. destruct (decide (LANG_CONFIG = ∅)) as [He|Hne].
  - split; [tauto | discriminate].
  - split; [split; [discriminate | contradiction]|].
    intros st' [= <-] lang.
    destruct (init_fold_entry (map fst (map_to_list LANG_CONFIG)) lang st)
      as [Hp Hq].
    cbv zeta in Hp, Hq. rewrite Hp, Hq. clear Hp Hq.
    assert (Hone :
      parsers (if bool_decide (lang ∈ map fst (map_to_list LANG_CONFIG))
               then snd (init lang st) else st) !! lang
      = parsers (snd (init lang st)) !! lang
      /\ _queries_compiled
           (if bool_decide (lang ∈ map fst (map_to_list LANG_CONFIG))
            then snd (init lang st) else st) !! lang
         = _queries_compiled (snd (init lang st)) !! lang).
    { destruct (bool_decide (lang ∈ map fst (map_to_list LANG_CONFIG))) eqn:E;
        [now split|].
      apply bool_decide_eq_false_1 in E.
      assert (Hnone : LANG_CONFIG !! lang = None).
      { destruct (LANG_CONFIG !! lang) as [cfg|] eqn:Hc; [|reflexivity].
        exfalso. apply E. apply list_elem_of_In, in_map_iff.
        exists (lang, cfg). split; [reflexivity|].
        apply list_elem_of_In, elem_of_map_to_list, Hc. }
      unfold _initialize_parser. rewrite Hnone.
      destruct (parsers st !! lang) eqn:Hst; cbn [snd]; now rewrite ?Hst. }
    destruct Hone as [-> ->]. unfold _initialize_parser.
    split; [|split].
    + intros p Hp. rewrite Hp. now split.
    + intros cfg l p Hp Hcfg Hl Hnew. rewrite Hp, Hcfg, Hl, Hnew. simpl.
      now rewrite !lookup_insert_eq.
    + intros Hp Hno. rewrite Hp.
      destruct (LANG_CONFIG !! lang) as [cfg|] eqn:Hcfg; [|now split].
      destruct (language cfg) as [l|] eqn:Hl; [|now split].
      now rewrite (Hno cfg l eq_refl Hl).
Qed.

(** X27. Classification is closed-world: a missing node, an unknown
    language or an unknown role key classifies as [false]; and when two
    role keys have different aliases no node is classified as both. *)
Theorem classification_is_closed_world (lang key key' : string) (n : Node) :
  is_node_type LANG_CONFIG None lang key = false
  /\ (LANG_CONFIG !! lang = None -> is_node_type LANG_CONFIG (Some n) lang key = false)
  /\ (assoc_get key (get_lang_config_val_node_types LANG_CONFIG lang) = None ->
      is_node_type LANG_CONFIG (Some n) lang key = false)
  /\ (assoc_get key (get_lang_config_val_node_types LANG_CONFIG lang)
      <> assoc_get key' (get_lang_config_val_node_types LANG_CONFIG lang) ->
      is_node_type LANG_CONFIG (Some n) lang key = true ->
      is_node_type LANG_CONFIG (Some n) lang key' = false).
Proof.
  unfold is_node_type, get_lang_config_val_node_types.
  split; [reflexivity|]. split; [now intros ->|]. split; [now intros ->|].
  destruct (LANG_CONFIG !! lang) as [cfg|]; [|discriminate].
  destruct (assoc_get key (node_types cfg)) as [ty|]; [|discriminate].
  destruct (assoc_get key' (node_types cfg)) as [ty'|]; [|reflexivity].
  intros Hne Hty. apply String.eqb_eq in Hty. apply String.eqb_neq.
  congruence.
Qed.

(** X28. The store is not idempotent: after processing the same file
    twice in a row, each of the three lists of its component is the list
    stored before (empty if there was none) followed by the file's records
    and then by the file's records again. *)
Theorem processing_twice_duplicates
    (f : SourceFile) (root : list string) (t : string) (w : world)
    (lang : string) (bs : bytes) (root_node : Node) :
  file_language LANG_MAP (rel_parts f) root = Some lang ->
  content f = Some bs ->
  fst (parse bs lang (pool w)) = Some root_node ->
  let cid := cid_of (path_str (rel_parts f)) t in
  let r := records root_node lang (rel_parts f) bs t
             (is_test_file (root ++ rel_parts f)
                (default "" (last (root ++ rel_parts f)))) in
  let old := assoc_get cid (components w) in
  exists c2,
    assoc_get cid (components (step f root t (step f root t w))) = Some c2
    /\ data_structures c2
       = from_option data_structures [] old ++ new_structs r ++ new_structs r
    /\ functions c2
       = from_option functions [] old ++ new_funcs r ++ new_funcs r
    /\ test_specifications c2
       = from_option test_specifications [] old ++ new_tests r ++ new_tests r.
Proof.
  intros Hlang Hcontent Hparse cid r old.
  destruct (process_file_upserts decode LANG_CONFIG new_parser compile_query
              ts_parse LANG_MAP f root t w lang bs root_node Hlang Hcontent Hparse)
    as [H1 _].
  assert (Hparse' : fst (parse bs lang (pool (step f root t w))) = Some root_node).
  { rewrite (parse_code_fst LANG_CONFIG new_parser compile_query ts_parse).
    rewrite (parse_code_fst LANG_CONFIG new_parser compile_query ts_parse) in Hparse.
    destruct (process_file_pool decode LANG_CONFIG new_parser compile_query
                ts_parse LANG_MAP f root t w) as [->|[lang' ->]]; [exact Hparse|].
    now rewrite (parser_of_init LANG_CONFIG new_parser compile_query). }
  destruct (process_file_upserts decode LANG_CONFIG new_parser compile_query
              ts_parse LANG_MAP f root t (step f root t w) lang bs root_node
              Hlang Hcontent Hparse') as [H2 _].
  cbv zeta in H1, H2. fold cid in H1, H2. fold r in H1, H2.
  eexists. split; [rewrite H2, H1; reflexivity|]. subst old.
  destruct (assoc_get cid (components w)) as [c|]; simpl;
    rewrite <- ?app_assoc; repeat split; reflexivity.
Qed.

End Startup.

Lemma classification_is_closed_world_witness :
  is_node_type (demo_LANG_CONFIG demo_grammar) (Some cls_class) "python" "class_def"
  = true
  /\ is_node_type (demo_LANG_CONFIG demo_grammar) (Some cls_class) "python" "func_def"
     = false
  /\ is_node_type (demo_LANG_CONFIG demo_grammar) (Some cls_class) "python" "assignment"
     = false.
Proof.
  destruct (classification_is_closed_world (demo_LANG_CONFIG demo_grammar)
              "python" "class_def" "func_def" cls_class) as (_ & _ & _ & Hexcl).
  destruct (classification_is_closed_world (demo_LANG_CONFIG demo_grammar)
              "python" "assignment" "func_def" cls_class) as (_ & _ & Hkey & _).
  split; [reflexivity|]. split.
  - apply Hexcl; [discriminate | reflexivity].
  - apply Hkey. reflexivity.
Defined.

(** [m.py] processed twice: [foo, bar, foo, bar]. *)
Lemma processing_twice_duplicates_witness :
  option_map (fun c => map fn_name (functions c))
    (assoc_get "pkg.m"
       (components
          (demo_process_file demo_grammar (file_of ["m.py"] foobar_src) demo_root
             "pkg" world_after_m)))
  = Some ["foo"; "bar"; "foo"; "bar"].
Proof.
  destruct (processing_twice_duplicates ascii_decode (demo_LANG_CONFIG demo_grammar)
              demo_new_parser demo_compile_query demo_ts_parse demo_LANG_MAP
              (file_of ["m.py"] foobar_src) demo_root "pkg" empty_world
              "python" (list_byte_of_string foobar_src) foobar_module
              eq_refl eq_refl eq_refl) as (c2 & Hget & _ & Hfun & _).
  change (find_component_id_for_lib demo_LANG_MAP
            (path_str (rel_parts (file_of ["m.py"] foobar_src))) "pkg")
    with "pkg.m" in Hget, Hfun.
  unfold world_after_m, demo_process_file. rewrite Hget.
  cbn [option_map]. rewrite Hfun. vm_compute. reflexivity.
Defined.

(** [sub/util/__init__.py] shares the component of [sub/util.py];
    [sub/misc.py] does not. *)
Lemma component_id_collisions_witness :
  find_component_id_for_lib demo_LANG_MAP
    (path_str ((["sub"] ++ ["util"]) ++ ["__init__.py"])) "pkg"
  = find_component_id_for_lib demo_LANG_MAP
      (path_str (["sub"] ++ ["util" +:+ ".py"])) "pkg"
  /\ find_component_id_for_lib demo_LANG_MAP
       (path_str (["sub"] ++ ["util" +:+ ".py"])) "pkg"
     <> find_component_id_for_lib demo_LANG_MAP
          (path_str (["sub"] ++ ["misc" +:+ ".py"])) "pkg".
Proof.
  destruct (component_id_collisions demo_LANG_MAP ["sub"] ["sub"] "util" "misc" "pkg")
    as [Hiff Hpkg].
  - repeat constructor; discriminate.
  - repeat constructor; discriminate.
  - simpl. tauto.
  - reflexivity.
  - reflexivity.
  - split; [exact Hpkg|]. intros H. apply Hiff in H. discriminate H.
Defined.
